(** * Pixel-art colour font builders: a shallow embedding

    The scripts under [font_experiments/] turn a small raster image into a
    stack of monochrome layer glyphs (one rectangle per pixel) plus a
    bounding outline and an advance width.  This development embeds the
    pixel classification loops, the per-layer rectangle builders and the
    metrics computations of four of these scripts and states the properties
    the design document asks of them.

    Python integers are unbounded, so coordinates live in [Z]; lists are
    Python lists in append order; the [color_pixel_groups] / [color_pixels]
    dictionaries are finite maps keyed by colour. *)

From stdpp Require Import gmap list sorting.
From Stdlib Require Import ZArith Lia.

Local Open Scope Z_scope.

(** ** Raster data *)

(** An RGB triple, as produced by [img.getpixel((x, y))[:3]]. *)
Definition RGB : Type := Z * Z * Z.

(** A raster coordinate [(x, y)]. *)
Definition Pixel : Type := Z * Z.

(** A decoded image: [img.size] and [img.getpixel], the latter already cut
    to its first three channels.  A decoded bitmap has positive width and
    height, so the read at the origin and every read of the scan are in
    range; [getpixel] is left total. *)
Record Image := mkImage {
  size : Z * Z;
  getpixel : Z → Z → RGB
}.

Definition original_width (img : Image) : Z := (size img).1.
Definition original_height (img : Image) : Z := (size img).2.

(** [bg_color = img.getpixel((0, 0))[:3]] *)
Definition bg_color (img : Image) : RGB := getpixel img 0 0.

Definition color_at (img : Image) (p : Pixel) : RGB := getpixel img p.1 p.2.

(** A concrete image given by its rows; reading outside the rows gives
    black.  Used to build test inputs. *)
Definition image_of_rows (rows : list (list RGB)) : Image :=
  {| size := (Z.of_nat (length (default [] (head rows))), Z.of_nat (length rows));
     getpixel := λ x y,
       if decide (0 ≤ x ∧ 0 ≤ y)
       then default (0, 0, 0) (row ← rows !! Z.to_nat y; row !! Z.to_nat x)
       else (0, 0, 0) |}.

(** [range(n)] *)
Definition range (n : Z) : list Z := seqZ 0 n.

(** The pixels in the order the nested loops
    [for y in range(original_height): for x in range(original_width)]
    visit them. *)
Definition scan (img : Image) : list Pixel :=
  y ← range (original_height img); x ← range (original_width img); [(x, y)].

(** ** Exceptions *)

(** The two exceptions the embedded statements can raise: [min()]/[max()]
    of an empty sequence, and a dictionary subscript with a missing key. *)
Inductive exn :=
  | ValueError
  | KeyError (k : RGB).

Definition result (A : Type) : Type := exn + A.

Definition ok {A} (a : A) : result A := inr a.
Definition raise {A} (e : exn) : result A := inl e.

Definition bind {A B} (r : result A) (k : A → result B) : result B :=
  match r with
  | inl e => inl e
  | inr a => k a
  end.

Notation "'do' x <- r ; k" := (bind r (λ x, k))
  (at level 10, x name, r at level 100, k at level 200).

(** A [for] loop whose body may raise: the first exception ends the loop. *)
Fixpoint for_each {A S} (body : S → A → result S) (s : S) (l : list A)
    : result S :=
  match l with
  | [] => ok s
  | a :: l' => do s' <- body s a; for_each body s' l'
  end.

(** [d[k]] on a dictionary of pixel lists. *)
Definition dict_get (d : gmap RGB (list Pixel)) (k : RGB) : result (list Pixel) :=
  match d !! k with
  | Some l => ok l
  | None => raise (KeyError k)
  end.

(** [min(xs)] and [max(xs)] over a sequence of integers. *)
Definition py_min (xs : list Z) : result Z :=
  match xs with
  | [] => raise ValueError
  | x :: xs' => ok (foldl Z.min x xs')
  end.

Definition py_max (xs : list Z) : result Z :=
  match xs with
  | [] => raise ValueError
  | x :: xs' => ok (foldl Z.max x xs')
  end.

(** ** The glyph pen *)

Definition Point : Type := Z * Z.
Definition Contour : Type := list Point.
Definition Glyph : Type := list Contour.

(** The part of fontTools' [TTGlyphPen] the scripts rely on: the pen
    collects the points of the contour being drawn, [closePath] files that
    contour, and [glyph()] returns the contours filed so far. *)
Record TTGlyphPen := mkPen {
  pen_contours : list Contour;
  pen_current : Contour
}.

Definition new_pen : TTGlyphPen := mkPen [] [].

Definition moveTo (pt : Point) (pen : TTGlyphPen) : TTGlyphPen :=
  mkPen (pen_contours pen) [pt].

Definition lineTo (pt : Point) (pen : TTGlyphPen) : TTGlyphPen :=
  mkPen (pen_contours pen) (pen_current pen ++ [pt]).

Definition closePath (pen : TTGlyphPen) : TTGlyphPen :=
  mkPen (pen_contours pen ++ [pen_current pen]) [].

Definition glyph (pen : TTGlyphPen) : Glyph := pen_contours pen.

(** Font-unit rectangle: the four values every script computes per pixel. *)
Record Rectangle := mkRect {
  rect_left : Z;
  rect_bottom : Z;
  rect_right : Z;
  rect_top : Z
}.

Global Instance Rectangle_eq_dec : EqDecision Rectangle.
Proof. solve_decision. Defined.

(** The five pen calls under the comment [# Add rectangle]. *)
Definition add_rectangle (pen : TTGlyphPen) (r : Rectangle) : TTGlyphPen :=
  let pen := moveTo (rect_left r, rect_bottom r) pen in
  let pen := lineTo (rect_right r, rect_bottom r) pen in
  let pen := lineTo (rect_right r, rect_top r) pen in
  let pen := lineTo (rect_left r, rect_top r) pen in
  closePath pen.

(** The closed 4-point contour of a rectangle. *)
Definition rectangle_contour (r : Rectangle) : Contour :=
  [ (rect_left r, rect_bottom r); (rect_right r, rect_bottom r);
    (rect_right r, rect_top r); (rect_left r, rect_top r) ].

(** The coordinate computation shared by the layer builders:
    [flipped_y = original_height - 1 - y],
    [left = x * scale_factor + x_offset], [right = left + scale_factor],
    [bottom = flipped_y * scale_factor + y_offset],
    [top = bottom + scale_factor]. *)
Definition pixel_rectangle (scale_factor x_offset y_offset height : Z)
    (p : Pixel) : Rectangle :=
  let '(x, y) := p in
  let flipped_y := height - 1 - y in
  let left := x * scale_factor + x_offset in
  let right := left + scale_factor in
  let bottom := flipped_y * scale_factor + y_offset in
  let top := bottom + scale_factor in
  mkRect left bottom right top.

(** ** create_three_color_blinka.py *)

Module ThreeColor.

Definition white_rgb : RGB := (255, 255, 255).
Definition light_blue_rgb : RGB := (166, 202, 240).
Definition purple_rgb : RGB := (128, 32, 192).

Definition scale_factor : Z := 4.

(** The four lists the classification loop appends to. *)
Record Groups := mkGroups {
  white_pixels : list Pixel;
  light_blue_pixels : list Pixel;
  purple_pixels : list Pixel;
  other_color_pixels : list (Z * Z * RGB)
}.

Definition no_groups : Groups := mkGroups [] [] [] [].

(** One iteration of the loop body. *)
Definition classify_pixel (img : Image) (g : Groups) (p : Pixel) : Groups :=
  let '(x, y) := p in
  let rgb := getpixel img x y in
  if decide (rgb = bg_color img) then g
  else if decide (rgb = white_rgb) then
    mkGroups (white_pixels g ++ [(x, y)]) (light_blue_pixels g)
             (purple_pixels g) (other_color_pixels g)
  else if decide (rgb = light_blue_rgb) then
    mkGroups (white_pixels g) (light_blue_pixels g ++ [(x, y)])
             (purple_pixels g) (other_color_pixels g)
  else
    mkGroups (white_pixels g) (light_blue_pixels g)
             (purple_pixels g ++ [(x, y)])
             (if decide (rgb ≠ purple_rgb)
              then other_color_pixels g ++ [(x, y, rgb)]
              else other_color_pixels g).

Definition separate_pixels (img : Image) : Groups :=
  foldl (classify_pixel img) no_groups (scan img).

Section Builders.
(** The closure variables of the nested helper functions.  The helpers
    are embedded for any scale factor; the script runs them with the
    constant [scale_factor] above. *)
Variable scale_factor : Z.
Variables original_width original_height : Z.

Definition scaled_width : Z := original_width * scale_factor.
Definition scaled_height : Z := original_height * scale_factor.

Definition create_color_layer_glyph (pixel_positions : list Pixel) : Glyph :=
  let pen := new_pen in
  match pixel_positions with
  | [] => glyph pen
  | _ =>
      glyph (foldl (λ pen p,
               add_rectangle pen
                 (pixel_rectangle scale_factor 50 100 original_height p))
               pen pixel_positions)
  end.

(** The rectangle [create_base_outline_glyph] draws for the list
    [all_visible]. *)
Definition base_outline_rectangle (all_visible : list Pixel)
    : result Rectangle :=
  match all_visible with
  | [] =>
      ok (mkRect 50 100 (50 + scaled_width) (100 + scaled_height))
  | _ =>
      do min_x <- py_min (all_visible.*1);
      do max_x <- py_max (all_visible.*1);
      do min_y <- py_min ((λ p : Pixel, original_height - 1 - p.2) <$> all_visible);
      do max_y <- py_max ((λ p : Pixel, original_height - 1 - p.2) <$> all_visible);
      let left := min_x * scale_factor + 50 in
      let right := (max_x + 1) * scale_factor + 50 in
      let bottom := min_y * scale_factor + 100 in
      let top := (max_y + 1) * scale_factor + 100 in
      ok (mkRect left bottom right top)
  end.

Definition create_base_outline_glyph (g : Groups) : result Glyph :=
  let all_visible :=
    white_pixels g ++ light_blue_pixels g ++ purple_pixels g in
  do r <- base_outline_rectangle all_visible;
  ok (glyph (add_rectangle new_pen r)).

(** [# Calculate proper metrics] *)
Definition glyph_width (all_visible : list Pixel) : result Z :=
  match all_visible with
  | [] => ok (scaled_width + 100)
  | _ =>
      do min_x <- py_min (all_visible.*1);
      do max_x <- py_max (all_visible.*1);
      ok ((max_x - min_x + 2) * scale_factor + 100)
  end.
End Builders.

(** What the script hands to the font builder for the [blinka]
    character: the outline glyph, the three layer glyphs, the shared
    advance width and the layer order with palette indices. *)
Record Output := mkOutput {
  groups : Groups;
  blinka : Glyph;
  blinka_purple : Glyph;
  blinka_white : Glyph;
  blinka_lightblue : Glyph;
  advance_width : Z
}.

Definition create_three_color_blinka (img : Image) : result Output :=
  let g := separate_pixels img in
  let w := original_width img in
  let h := original_height img in
  do outline <- create_base_outline_glyph scale_factor w h g;
  let all_visible :=
    white_pixels g ++ light_blue_pixels g ++ purple_pixels g in
  do width <- glyph_width scale_factor w all_visible;
  ok (mkOutput g outline
        (create_color_layer_glyph scale_factor h (purple_pixels g))
        (create_color_layer_glyph scale_factor h (white_pixels g))
        (create_color_layer_glyph scale_factor h (light_blue_pixels g))
        width).

End ThreeColor.

(** ** create_compensated_three_color_blinka.py *)

Module Compensated.

Definition white_rgb : RGB := (255, 255, 255).
Definition light_blue_rgb : RGB := (166, 202, 240).

Definition scale_factor : Z := 4.
Definition base_offset : Z := 50.

Record Groups := mkGroups {
  white_pixels : list Pixel;
  light_blue_pixels : list Pixel;
  purple_pixels : list Pixel
}.

Definition no_groups : Groups := mkGroups [] [] [].

Definition classify_pixel (img : Image) (g : Groups) (p : Pixel) : Groups :=
  let '(x, y) := p in
  let rgb := getpixel img x y in
  if decide (rgb = bg_color img) then g
  else if decide (rgb = white_rgb) then
    mkGroups (white_pixels g ++ [(x, y)]) (light_blue_pixels g) (purple_pixels g)
  else if decide (rgb = light_blue_rgb) then
    mkGroups (white_pixels g) (light_blue_pixels g ++ [(x, y)]) (purple_pixels g)
  else
    mkGroups (white_pixels g) (light_blue_pixels g) (purple_pixels g ++ [(x, y)]).

Definition separate_pixels (img : Image) : Groups :=
  foldl (classify_pixel img) no_groups (scan img).

(** The keys of the [compensation_offsets] dictionary. *)
Inductive layer_name := purple | white | lightblue.

Definition compensation_offsets (name : layer_name) : Z :=
  match name with
  | purple => 0
  | white => 0
  | lightblue => 12
  end.

(** The rectangle the loop body computes for one pixel. *)
Definition compensated_rectangle (original_height compensation : Z)
    (p : Pixel) : Rectangle :=
  let '(x, y) := p in
  let flipped_y := original_height - 1 - y in
  let base_left := x * scale_factor + base_offset in
  let compensated_left := base_left + compensation in
  let right := compensated_left + scale_factor in
  let bottom := flipped_y * scale_factor + 100 in
  let top := bottom + scale_factor in
  mkRect compensated_left bottom right top.

Definition create_compensated_color_layer_glyph (original_height : Z)
    (pixel_positions : list Pixel) (compensation : Z) : Glyph :=
  let pen := new_pen in
  match pixel_positions with
  | [] => glyph pen
  | _ =>
      glyph (foldl (λ pen p,
               add_rectangle pen
                 (compensated_rectangle original_height compensation p))
               pen pixel_positions)
  end.

(** The pixel list each layer glyph is built from. *)
Definition layer_pixels (g : Groups) (name : layer_name) : list Pixel :=
  match name with
  | purple => purple_pixels g
  | white => white_pixels g
  | lightblue => light_blue_pixels g
  end.

(** The entry of the [glyphs] dictionary for ["blinka." + name]. *)
Definition layer_glyph (img : Image) (name : layer_name) : Glyph :=
  create_compensated_color_layer_glyph (original_height img)
    (layer_pixels (separate_pixels img) name) (compensation_offsets name).

End Compensated.

(** ** create_final_seventeen_color_blinka.py *)

Module Seventeen.

Definition seventeen_colors : list RGB :=
  [ (255, 255, 255); (166, 202, 240);
    (128, 32, 192); (96, 24, 144); (96, 64, 128); (160, 32, 192);
    (61, 43, 52); (40, 49, 58); (102, 26, 154); (120, 24, 144);
    (128, 26, 154); (224, 160, 192);
    (64, 42, 85); (60, 40, 80); (38, 46, 55); (0, 64, 192); (56, 40, 48) ].

Definition scale_factor : Z := 4.
Definition base_offset : Z := 50.

(** The two accumulators of the classification loop. *)
Record Scan := mkScan {
  color_pixel_groups : gmap RGB (list Pixel);
  all_visible_pixels : list Pixel
}.

Definition empty_scan : Scan := mkScan ∅ [].

(** The inner loop [for color in seventeen_colors: if rgb == color: ...; break]. *)
Fixpoint match_color (rgb : RGB) (p : Pixel) (colors : list RGB)
    (groups : gmap RGB (list Pixel)) : result (gmap RGB (list Pixel)) :=
  match colors with
  | [] => ok groups
  | color :: colors' =>
      if decide (rgb = color) then
        let groups :=
          if decide (groups !! color = None) then <[color := []]> groups
          else groups in
        do l <- dict_get groups color;
        ok (<[color := l ++ [p]]> groups)
      else match_color rgb p colors' groups
  end.

Definition classify_pixel (img : Image) (st : Scan) (p : Pixel) : result Scan :=
  let '(x, y) := p in
  let rgb := getpixel img x y in
  if decide (rgb = bg_color img) then ok st
  else
    let all_visible := all_visible_pixels st ++ [(x, y)] in
    do groups <- match_color rgb (x, y) seventeen_colors (color_pixel_groups st);
    ok (mkScan groups all_visible).

Definition separate_pixels (img : Image) : result Scan :=
  for_each (classify_pixel img) empty_scan (scan img).

(** The overall bounds, in raw raster coordinates. *)
Record Bounds := mkBounds { min_x : Z; max_x : Z; min_y : Z; max_y : Z }.

Definition overall_bounds (all_visible_pixels : list Pixel) : result Bounds :=
  do min_x <- py_min (all_visible_pixels.*1);
  do max_x <- py_max (all_visible_pixels.*1);
  do min_y <- py_min (all_visible_pixels.*2);
  do max_y <- py_max (all_visible_pixels.*2);
  ok (mkBounds min_x max_x min_y max_y).

Section Layers.
(** The closure variables of [create_layer_with_smart_spacers]. *)
Variable original_height : Z.
Variable b : Bounds.

Definition spacers_to_add (pixel_positions : list Pixel)
    (needs_spacers : bool) : list Pixel :=
  if needs_spacers && bool_decide (pixel_positions ≠ []) then
    let boundary_spacers := [ (min_x b, min_y b); (max_x b, max_y b) ] in
    foldl (λ spacers s,
             if decide (s ∉ pixel_positions) then spacers ++ [s] else spacers)
          [] boundary_spacers
  else [].

(** The rectangle the drawing loop computes for one entry of
    [all_layer_pixels]. *)
Definition layer_rectangle (spacers : list Pixel) (p : Pixel) : Rectangle :=
  let '(x, y) := p in
  let flipped_y := original_height - 1 - y in
  let left := x * scale_factor + base_offset in
  let bottom := flipped_y * scale_factor + 100 in
  let is_spacer := bool_decide ((x, y) ∈ spacers) in
  if is_spacer
  then mkRect left bottom (left + 1) (bottom + 1)
  else mkRect left bottom (left + scale_factor) (bottom + scale_factor).

Definition all_layer_pixels (pixel_positions : list Pixel)
    (needs_spacers : bool) : list Pixel :=
  pixel_positions ++ spacers_to_add pixel_positions needs_spacers.

Definition create_layer_with_smart_spacers (pixel_positions : list Pixel)
    (needs_spacers : bool) : Glyph :=
  let spacers := spacers_to_add pixel_positions needs_spacers in
  glyph (foldl (λ pen p, add_rectangle pen (layer_rectangle spacers p))
           new_pen (all_layer_pixels pixel_positions needs_spacers)).
End Layers.

(** [len(pixels) > 4 or color in [white, light blue, main purple]] *)
Definition needs_spacers (color : RGB) (pixels : list Pixel) : bool :=
  bool_decide (4 < length pixels)%nat
  || bool_decide (color ∈ [ (255, 255, 255); (166, 202, 240); (128, 32, 192) ]).

(** The pixel list and spacer flag of every layer of the [blinka]
    character: [blinka.base] first, then [blinka.color01] to
    [blinka.color17]. *)
Definition layer_inputs (st : Scan) : list (list Pixel * bool) :=
  (all_visible_pixels st, true)
  :: ((λ color,
         let pixels := default [] (color_pixel_groups st !! color) in
         (pixels, needs_spacers color pixels)) <$> seventeen_colors).

Record Output := mkOutput {
  scanned : Scan;
  bounds : Bounds;
  layer_glyphs : list Glyph;
  advance_width : Z
}.

(** [# Metrics calculation] *)
Definition glyph_width (b : Bounds) : Z :=
  (max_x b - min_x b + 2) * scale_factor + 100.

Definition create_final_seventeen_color_blinka (img : Image) : result Output :=
  do st <- separate_pixels img;
  do b <- overall_bounds (all_visible_pixels st);
  let glyphs :=
    (λ i : list Pixel * bool,
       create_layer_with_smart_spacers (original_height img) b i.1 i.2)
      <$> layer_inputs st in
  ok (mkOutput st b glyphs (glyph_width b)).

End Seventeen.

(** ** create_fixed_six_color_blinka.py *)

Module FixedSix.

Record Scan := mkScan {
  color_pixels : gmap RGB (list Pixel);
  other_pixels : list (Z * Z * RGB)
}.

(** [max(items, key=key)]: the first item whose key is not exceeded by
    any other. *)
Fixpoint max_from (key : RGB → result nat) (best : RGB) (best_key : nat)
    (items : list RGB) : result RGB :=
  match items with
  | [] => ok best
  | c :: items' =>
      do k <- key c;
      if decide (best_key < k)%nat
      then max_from key c k items'
      else max_from key best best_key items'
  end.

Definition py_max_key (key : RGB → result nat) (items : list RGB) : result RGB :=
  match items with
  | [] => raise ValueError
  | c :: items' => do k <- key c; max_from key c k items'
  end.

Section Classification.
(** [top_6_colors], the ordered target colours chosen before the
    classification loop runs. *)
Variable top_6_colors : list RGB.

(** [for color in top_6_colors: color_pixels[color] = []] *)
Definition initial_scan : Scan :=
  mkScan (foldl (λ d color, <[color := []]> d) ∅ top_6_colors) [].

(** [max(top_6_colors, key=lambda c: len(color_pixels[c]))] *)
Definition largest_color (d : gmap RGB (list Pixel)) : result RGB :=
  py_max_key (λ c, do l <- dict_get d c; ok (length l)) top_6_colors.

Definition classify_pixel (img : Image) (st : Scan) (p : Pixel) : result Scan :=
  let '(x, y) := p in
  let rgb := getpixel img x y in
  if decide (rgb = bg_color img) then ok st
  else if decide (rgb ∈ top_6_colors) then
    do l <- dict_get (color_pixels st) rgb;
    ok (mkScan (<[rgb := l ++ [(x, y)]]> (color_pixels st)) (other_pixels st))
  else
    do largest <- largest_color (color_pixels st);
    do l <- dict_get (color_pixels st) largest;
    ok (mkScan (<[largest := l ++ [(x, y)]]> (color_pixels st))
               (other_pixels st ++ [(x, y, rgb)])).

(** The classification loop started from a given state, and from the
    initial one. *)
Definition classify_pixels (img : Image) (st : Scan) (ps : list Pixel)
    : result Scan :=
  for_each (classify_pixel img) st ps.

Definition separate_pixels (img : Image) : result Scan :=
  classify_pixels img initial_scan (scan img).
End Classification.

End FixedSix.

(** ** create_compensated_three_color_blinka.py: outline and metrics *)

Module CompensatedMetrics.

(** The rectangle [create_base_outline_glyph] draws. *)
Definition base_outline_rectangle (original_width original_height : Z)
    (all_visible : list Pixel) : result Rectangle :=
  match all_visible with
  | [] =>
      ok (mkRect Compensated.base_offset 100
            (Compensated.base_offset + original_width * Compensated.scale_factor)
            (100 + original_height * Compensated.scale_factor))
  | _ =>
      do min_x <- py_min (all_visible.*1);
      do max_x <- py_max (all_visible.*1);
      do min_y <- py_min ((λ p : Pixel, original_height - 1 - p.2) <$> all_visible);
      do max_y <- py_max ((λ p : Pixel, original_height - 1 - p.2) <$> all_visible);
      let left := min_x * Compensated.scale_factor + Compensated.base_offset in
      let right := (max_x + 1) * Compensated.scale_factor + Compensated.base_offset in
      let bottom := min_y * Compensated.scale_factor + 100 in
      let top := (max_y + 1) * Compensated.scale_factor + 100 in
      ok (mkRect left bottom right top)
  end.

(** [compensation_offsets.values()], in insertion order. *)
Definition compensation_values : list Z :=
  Compensated.compensation_offsets
    <$> [ Compensated.purple; Compensated.white; Compensated.lightblue ].

(** [# Calculate proper metrics (expand to accommodate compensation)] *)
Definition glyph_width (original_width : Z) (all_visible : list Pixel) : result Z :=
  match all_visible with
  | [] => ok (original_width * Compensated.scale_factor + 100 + 12)
  | _ =>
      do min_x <- py_min (all_visible.*1);
      do max_x <- py_max (all_visible.*1);
      do max_compensation <- py_max compensation_values;
      ok ((max_x - min_x + 2) * Compensated.scale_factor + 100 + max_compensation)
  end.

End CompensatedMetrics.

(** ** create_final_seventeen_color_blinka.py: the fidelity report *)

Module SeventeenReport.

(** [sum(len(pixels) for pixels in color_pixel_groups.values())] *)
Definition total_colored_pixels (groups : gmap RGB (list Pixel)) : Z :=
  map_fold (λ _ pixels total, total + Z.of_nat (length pixels)) 0 groups.

(** [len(all_visible_pixels) - total_colored_pixels] *)
Definition remaining_pixels (st : Seventeen.Scan) : Z :=
  Z.of_nat (length (Seventeen.all_visible_pixels st))
  - total_colored_pixels (Seventeen.color_pixel_groups st).

End SeventeenReport.

(** ** create_fixed_six_color_blinka.py: target selection and glyphs *)

Module FixedSixRun.

Definition scale_factor : Z := 4.

(** [color_counts[rgb] = color_counts.get(rgb, 0) + 1] on a dictionary
    kept as its items in insertion order. *)
Fixpoint increment (rgb : RGB) (color_counts : list (RGB * Z)) : list (RGB * Z) :=
  match color_counts with
  | [] => [(rgb, 0 + 1)]
  | (color, count) :: rest =>
      if decide (color = rgb) then (color, count + 1) :: rest
      else (color, count) :: increment rgb rest
  end.

(** The counting loop. *)
Definition color_counts (img : Image) : list (RGB * Z) :=
  foldl (λ counts p,
           let '(x, y) := p in
           let rgb := getpixel img x y in
           if decide (rgb ≠ bg_color img) then increment rgb counts else counts)
        [] (scan img).

(** [sorted(items, key=lambda x: x[1], reverse=True)]: a stable sort by
    falling count; items of equal count keep their order. *)
Fixpoint insert_descending (item : RGB * Z) (sorted : list (RGB * Z))
    : list (RGB * Z) :=
  match sorted with
  | [] => [item]
  | other :: sorted' =>
      if decide (item.2 < other.2) then other :: insert_descending item sorted'
      else item :: other :: sorted'
  end.

Definition sorted_descending (items : list (RGB * Z)) : list (RGB * Z) :=
  foldr insert_descending [] items.

Definition sorted_colors (img : Image) : list (RGB * Z) :=
  sorted_descending (color_counts img).

(** [[color for color, count in sorted_colors[:6]]] *)
Definition top_6_colors (img : Image) : list RGB := (take 6 (sorted_colors img)).*1.

Section Glyphs.
Variables original_width original_height : Z.

Definition create_color_layer_glyph (pixel_positions : list Pixel) : Glyph :=
  let pen := new_pen in
  match pixel_positions with
  | [] => glyph pen
  | _ =>
      glyph (foldl (λ pen p,
               let '(x, y) := p in
               let flipped_y := original_height - 1 - y in
               let left := x * scale_factor + 50 in
               let right := left + scale_factor in
               let bottom := flipped_y * scale_factor + 100 in
               let top := bottom + scale_factor in
               add_rectangle pen (mkRect left bottom right top))
               pen pixel_positions)
  end.

(** [for color in top_6_colors: all_visible.extend(color_pixels[color])] *)
Definition collect_visible (top_6_colors : list RGB)
    (color_pixels : gmap RGB (list Pixel)) : result (list Pixel) :=
  for_each (λ all_visible color,
              do pixels <- dict_get color_pixels color;
              ok (all_visible ++ pixels))
           [] top_6_colors.

Definition base_outline_rectangle (all_visible : list Pixel) : result Rectangle :=
  match all_visible with
  | [] =>
      ok (mkRect 50 100 (50 + original_width * scale_factor)
                        (100 + original_height * scale_factor))
  | _ =>
      do min_x <- py_min (all_visible.*1);
      do max_x <- py_max (all_visible.*1);
      do min_y <- py_min ((λ p : Pixel, original_height - 1 - p.2) <$> all_visible);
      do max_y <- py_max ((λ p : Pixel, original_height - 1 - p.2) <$> all_visible);
      let left := min_x * scale_factor + 50 in
      let right := (max_x + 1) * scale_factor + 50 in
      let bottom := min_y * scale_factor + 100 in
      let top := (max_y + 1) * scale_factor + 100 in
      ok (mkRect left bottom right top)
  end.

(** The layer glyphs, one per target colour in target order. *)
Definition layer_glyphs (top_6_colors : list RGB)
    (color_pixels : gmap RGB (list Pixel)) : result (list Glyph) :=
  for_each (λ glyphs color,
              do pixels <- dict_get color_pixels color;
              ok (glyphs ++ [create_color_layer_glyph pixels]))
           [] top_6_colors.

Definition glyph_width (all_visible : list Pixel) : result Z :=
  match all_visible with
  | [] => ok (original_width * scale_factor + 100)
  | _ =>
      do min_x <- py_min (all_visible.*1);
      do max_x <- py_max (all_visible.*1);
      ok ((max_x - min_x + 2) * scale_factor + 100)
  end.
End Glyphs.

Record Output := mkOutput {
  targets : list RGB;
  scanned : FixedSix.Scan;
  blinka : Glyph;
  layers : list Glyph;
  advance_width : Z
}.

Definition create_fixed_six_color_blinka (img : Image) : result Output :=
  let top := top_6_colors img in
  let w := original_width img in
  let h := original_height img in
  do st <- FixedSix.separate_pixels top img;
  do all_visible <- collect_visible top (FixedSix.color_pixels st);
  do outline <- base_outline_rectangle w h all_visible;
  do glyphs <- layer_glyphs h top (FixedSix.color_pixels st);
  do width <- glyph_width w all_visible;
  ok (mkOutput top st (glyph (add_rectangle new_pen outline)) glyphs width).

End FixedSixRun.

(** * Specification vocabulary *)

(** [m] is the least (greatest) element of [xs]. *)
Definition is_min (m : Z) (xs : list Z) : Prop := m ∈ xs ∧ ∀ z, z ∈ xs → m ≤ z.
Definition is_max (m : Z) (xs : list Z) : Prop := m ∈ xs ∧ ∀ z, z ∈ xs → z ≤ m.

(** The three tests of the [if]/[elif] chain, as predicates on a pixel. *)
Definition is_white (img : Image) (p : Pixel) : Prop :=
  color_at img p ≠ bg_color img ∧ color_at img p = ThreeColor.white_rgb.
Definition is_light_blue (img : Image) (p : Pixel) : Prop :=
  color_at img p ≠ bg_color img ∧ color_at img p ≠ ThreeColor.white_rgb
  ∧ color_at img p = ThreeColor.light_blue_rgb.
Definition is_other (img : Image) (p : Pixel) : Prop :=
  color_at img p ≠ bg_color img ∧ color_at img p ≠ ThreeColor.white_rgb
  ∧ color_at img p ≠ ThreeColor.light_blue_rgb.

Global Instance is_white_dec img p : Decision (is_white img p).
Proof. unfold is_white. apply _. Defined.
Global Instance is_light_blue_dec img p : Decision (is_light_blue img p).
Proof. unfold is_light_blue. apply _. Defined.
Global Instance is_other_dec img p : Decision (is_other img p).
Proof. unfold is_other. apply _. Defined.

(** A 2x2 image with nothing but background. *)
Definition blank_2x2 : Image :=
  image_of_rows [ [(0, 0, 0); (0, 0, 0)]; [(0, 0, 0); (0, 0, 0)] ].

(** [outer] covers [inner]; strictly so when they also differ. *)
Definition encloses (outer inner : Rectangle) : Prop :=
  rect_left outer ≤ rect_left inner ∧ rect_bottom outer ≤ rect_bottom inner
  ∧ rect_right inner ≤ rect_right outer ∧ rect_top inner ≤ rect_top outer.

Definition strictly_encloses (outer inner : Rectangle) : Prop :=
  encloses outer inner ∧ outer ≠ inner.

(** The raw coordinates of [p] lie strictly outside the x-range or the
    y-range of the pixels [ps]. *)
Definition outside_extent (p : Pixel) (ps : list Pixel) : Prop :=
  (∀ q, q ∈ ps → p.1 < q.1) ∨ (∀ q, q ∈ ps → q.1 < p.1)
  ∨ (∀ q, q ∈ ps → p.2 < q.2) ∨ (∀ q, q ∈ ps → q.2 < p.2).

(** Scenario A as the design document words it: the pixel at the origin
    is purple and the three others are black. *)
Definition scenario_A_image : Image :=
  image_of_rows [ [(128, 32, 192); (0, 0, 0)]; [(0, 0, 0); (0, 0, 0)] ].

(** The same scenario with the purple pixel moved off the origin. *)
Definition scenario_A_shifted : Image :=
  image_of_rows [ [(0, 0, 0); (128, 32, 192)]; [(0, 0, 0); (0, 0, 0)] ].

(** What scenario A expects of a run: the visible pixels are exactly the
    origin pixel, and the layers hold exactly one contour, the rectangle
    left=50, bottom=104, right=54, top=108. *)
Definition scenario_A_expected (img : Image) : Prop :=
  ∃ out, ThreeColor.create_three_color_blinka img = inr out
    ∧ ThreeColor.white_pixels (ThreeColor.groups out)
      ++ ThreeColor.light_blue_pixels (ThreeColor.groups out)
      ++ ThreeColor.purple_pixels (ThreeColor.groups out) = [(0, 0)]
    ∧ ThreeColor.blinka_white out ++ ThreeColor.blinka_lightblue out
      ++ ThreeColor.blinka_purple out
      = [rectangle_contour (mkRect 50 104 54 108)].

(** The visible pixels of colour [c] among [ps], in order. *)
Definition group_of (img : Image) (c : RGB) (ps : list Pixel) : list Pixel :=
  filter (λ p, color_at img p ≠ bg_color img ∧ color_at img p = c) ps.

(** The visible pixels among [ps], in order. *)
Definition visible (img : Image) (ps : list Pixel) : list Pixel :=
  filter (λ p, color_at img p ≠ bg_color img) ps.

(** A run that ends in an exception. *)
Definition raises {A} (r : result A) : Prop := ∃ e, r = inl e.

(** The groups hold every visible pixel of the image and nothing else. *)
Definition covers_visible (img : Image) (groups : gmap RGB (list Pixel)) : Prop :=
  ∀ p, (∃ c l, groups !! c = Some l ∧ p ∈ l)
       ↔ p ∈ scan img ∧ color_at img p ≠ bg_color img.

(** No pixel is in the groups of two colours. *)
Definition pairwise_disjoint (groups : gmap RGB (list Pixel)) : Prop :=
  ∀ c1 c2 l1 l2 p,
    c1 ≠ c2 → groups !! c1 = Some l1 → groups !! c2 = Some l2 →
    p ∈ l1 → p ∉ l2.

(** A 2x1 image whose only visible pixel has a colour outside the
    seventeen targets. *)
Definition unmatched_image : Image := image_of_rows [ [(0, 0, 0); (1, 2, 3)] ].

(** The state of the classification loop after the pixels [ps]. *)
Definition seventeen_state (img : Image) (ps : list Pixel) (st : Seventeen.Scan) : Prop :=
  Seventeen.all_visible_pixels st = visible img ps
  ∧ ∀ c, Seventeen.color_pixel_groups st !! c
         = if decide (c ∈ Seventeen.seventeen_colors ∧ group_of img c ps ≠ [])
           then Some (group_of img c ps) else None.

(** The 1x1 rectangle a boundary spacer is drawn as: it starts at the
    same corner as the pixel's own rectangle. *)
Definition spacer_rectangle (height : Z) (p : Pixel) : Rectangle :=
  let r := pixel_rectangle 4 50 100 height p in
  mkRect (rect_left r) (rect_bottom r) (rect_left r + 1) (rect_bottom r + 1).

(** A 2x2 image with a white pixel above a light-blue one in the right
    column. *)
Definition two_eyes_image : Image :=
  image_of_rows [ [(0, 0, 0); (255, 255, 255)]; [(0, 0, 0); (166, 202, 240)] ].

(** Each entry of [all_layer_pixels] of a seventeen-colour layer next to
    the rectangle the drawing loop computes for it. *)
Definition layer_drawing (height : Z) (b : Seventeen.Bounds)
    (pixel_positions : list Pixel) (needs_spacers : bool)
    : list (Pixel * Rectangle) :=
  let spacers := Seventeen.spacers_to_add b pixel_positions needs_spacers in
  (λ p, (p, Seventeen.layer_rectangle height spacers p))
    <$> Seventeen.all_layer_pixels b pixel_positions needs_spacers.

(** The drawings of all eighteen layers of the seventeen-colour run. *)
Definition seventeen_drawings (height : Z) (b : Seventeen.Bounds)
    (st : Seventeen.Scan) : list (list (Pixel * Rectangle)) :=
  (λ i : list Pixel * bool, layer_drawing height b i.1 i.2)
    <$> Seventeen.layer_inputs st.

(** No pixel is drawn as two different rectangles by two layers. *)
Definition layers_agree (layers : list (list (Pixel * Rectangle))) : Prop :=
  ∀ l1 l2 p r1 r2,
    l1 ∈ layers → l2 ∈ layers → (p, r1) ∈ l1 → (p, r2) ∈ l2 → r1 = r2.

(** [len(color_pixels[c])] for a key that is present. *)
Definition group_size (d : gmap RGB (list Pixel)) (c : RGB) : nat :=
  length (default [] (d !! c)).

(** [c] is the first item of [items] whose size no other item exceeds:
    every item is at most as large, and every earlier item is strictly
    smaller. *)
Definition first_largest (size : RGB → nat) (items : list RGB) (c : RGB) : Prop :=
  ∃ i : nat, items !! i = Some c
    ∧ (∀ (j : nat) c', items !! j = Some c' → (size c' ≤ size c)%nat)
    ∧ (∀ (j : nat) c', (j < i)%nat → items !! j = Some c' → (size c' < size c)%nat).

(** Every target colour has an entry in the dictionary. *)
Definition has_all_keys (items : list RGB) (d : gmap RGB (list Pixel)) : Prop :=
  ∀ c, c ∈ items → is_Some (d !! c).

(** Three target colours, and a one-row image: background, a pixel of the
    first target, a pixel of a foreign colour, then three pixels of the
    second target. *)
Definition three_targets : list RGB := [ (10, 0, 0); (20, 0, 0); (30, 0, 0) ].

Definition scenario_D_image : Image :=
  image_of_rows
    [ [ (0, 0, 0); (10, 0, 0); (7, 7, 7); (20, 0, 0); (20, 0, 0); (20, 0, 0) ] ].

(** The groups [d] split the visible pixels among [ps]: no list repeats a
    pixel, no two lists share one, and together they hold exactly the
    visible pixels of [ps]. *)
Definition splits_visible (img : Image) (ps : list Pixel)
    (d : gmap RGB (list Pixel)) : Prop :=
  (∀ c l, d !! c = Some l → NoDup l)
  ∧ pairwise_disjoint d
  ∧ ∀ p, (∃ c l, d !! c = Some l ∧ p ∈ l) ↔ p ∈ visible img ps.

(** [color_counts.get(c, 0)] on the items of the dictionary. *)
Fixpoint count_of (color_counts : list (RGB * Z)) (c : RGB) : Z :=
  match color_counts with
  | [] => 0
  | (color, count) :: rest => if decide (color = c) then count else count_of rest c
  end.

(** The body of the counting loop of the fixed-six script, and the loop
    run over the pixels [ps]. *)
Definition count_pixel (img : Image) (counts : list (RGB * Z)) (p : Pixel)
    : list (RGB * Z) :=
  let '(x, y) := p in
  let rgb := getpixel img x y in
  if decide (rgb ≠ bg_color img) then FixedSixRun.increment rgb counts
  else counts.

Definition counts_after (img : Image) (ps : list Pixel) : list (RGB * Z) :=
  foldl (count_pixel img) [] ps.

(** The entries [other_pixels] should hold after the pixels [ps]: the
    visible pixels of a colour outside the targets, with their colour. *)
Definition foreign_pixels (img : Image) (top : list RGB) (ps : list Pixel)
    : list (Z * Z * RGB) :=
  (λ p : Pixel, (p.1, p.2, color_at img p))
    <$> filter (λ p, color_at img p ≠ bg_color img ∧ color_at img p ∉ top) ps.

(** The state of the fixed-six classification loop after the pixels
    [ps]: the dictionary has exactly the targets as keys; the list of a
    target holds all visible pixels of its colour among [ps], in order,
    and besides them only visible pixels of foreign colours. *)
Definition fixed_six_state (img : Image) (top : list RGB) (ps : list Pixel)
    (st : FixedSix.Scan) : Prop :=
  FixedSix.other_pixels st = foreign_pixels img top ps
  ∧ (∀ c, is_Some (FixedSix.color_pixels st !! c) ↔ c ∈ top)
  ∧ ∀ c l, FixedSix.color_pixels st !! c = Some l →
      filter (λ p, color_at img p = c) l = group_of img c ps
      ∧ ∀ p, p ∈ l → p ∈ ps ∧ color_at img p ≠ bg_color img
                     ∧ (color_at img p = c ∨ color_at img p ∉ top).

(** A 3x2 image with a white pixel and a light-blue pixel on a diagonal:
    neither corner of their bounding box is a visible pixel. *)
Definition diagonal_image : Image :=
  image_of_rows [ [(0, 0, 0); (0, 0, 0); (255, 255, 255)];
                  [(0, 0, 0); (166, 202, 240); (0, 0, 0)] ].

(** * Verification *)

(** ** Basic facts about the pen and the scan order *)

Lemma for_each_app {A S} (body : S → A → result S) (s : S) (l k : list A) :
  for_each body s (l ++ k) = do s' <- for_each body s l; for_each body s' k.
Proof.
  revert s; induction l as [|a l IH]; intros s; simpl; [done|].
  destruct (body s a) as [e|s']; simpl; [done | apply IH].
Qed.

Lemma glyph_add_rectangles {A} (rect : A → Rectangle) (ps : list A) (pen : TTGlyphPen) :
  glyph (foldl (λ pen p, add_rectangle pen (rect p)) pen ps)
  = glyph pen ++ ((λ p, rectangle_contour (rect p)) <$> ps).
Proof.
  revert pen; induction ps as [|p ps IH]; intros pen; simpl.
  - by rewrite app_nil_r.
  - rewrite IH. unfold add_rectangle, glyph; simpl. by rewrite <- app_assoc.
Qed.

Lemma elem_of_scan (img : Image) (p : Pixel) :
  p ∈ scan img ↔
  (0 ≤ p.1 < original_width img) ∧ (0 ≤ p.2 < original_height img).
Proof.
  unfold scan, range. destruct p as [x y]; simpl.
  rewrite list_elem_of_bind. split.
  - intros (y' & Hx & Hy). apply list_elem_of_bind in Hx as (x' & Hp & Hx).
    apply list_elem_of_singleton in Hp. injection Hp as -> ->.
    apply elem_of_seqZ in Hx, Hy. lia.
  - intros [Hx Hy]. exists y. split; [|apply elem_of_seqZ; lia].
    apply list_elem_of_bind. exists x. split; [by apply list_elem_of_singleton|].
    apply elem_of_seqZ; lia.
Qed.

Lemma NoDup_scan (img : Image) : NoDup (scan img).
Proof.
  unfold scan, range. apply NoDup_bind; [| |apply NoDup_seqZ].
  - intros y1 y2 p _ _ H1 H2.
    apply list_elem_of_bind in H1 as (x1 & H1 & _).
    apply list_elem_of_bind in H2 as (x2 & H2 & _).
    apply list_elem_of_singleton in H1, H2. congruence.
  - intros y _. apply NoDup_bind; [| |apply NoDup_seqZ].
    + intros x1 x2 p _ _ H1 H2.
      apply list_elem_of_singleton in H1, H2. congruence.
    + intros x _. apply NoDup_singleton.
Qed.

(** [min()] and [max()] of a non-empty sequence return an element that
    bounds all the others. *)
Lemma foldl_min_spec (xs : list Z) (x : Z) :
  let m := foldl Z.min x xs in
  m ∈ x :: xs ∧ ∀ z, z ∈ x :: xs → m ≤ z.
Proof.
  revert x; induction xs as [|y xs IH]; intros x; simpl.
  - split; [apply elem_of_cons; auto|].
    intros z Hz. apply list_elem_of_singleton in Hz. lia.
  - destruct (IH (Z.min x y)) as [Hin Hle]. split.
    + rewrite !elem_of_cons. apply elem_of_cons in Hin as [Hin|Hin]; [|auto].
      rewrite Hin. destruct (Z.min_spec x y) as [[_ ->]|[_ ->]]; auto.
    + intros z Hz.
      assert (Hm : foldl Z.min (Z.min x y) xs ≤ Z.min x y)
        by (apply Hle, elem_of_cons; auto).
      apply elem_of_cons in Hz as [->|Hz]; [lia|].
      apply elem_of_cons in Hz as [->|Hz]; [lia|].
      apply Hle, elem_of_cons; auto.
Qed.

Lemma foldl_max_spec (xs : list Z) (x : Z) :
  let m := foldl Z.max x xs in
  m ∈ x :: xs ∧ ∀ z, z ∈ x :: xs → z ≤ m.
Proof.
  revert x; induction xs as [|y xs IH]; intros x; simpl.
  - split; [apply elem_of_cons; auto|].
    intros z Hz. apply list_elem_of_singleton in Hz. lia.
  - destruct (IH (Z.max x y)) as [Hin Hle]. split.
    + rewrite !elem_of_cons. apply elem_of_cons in Hin as [Hin|Hin]; [|auto].
      rewrite Hin. destruct (Z.max_spec x y) as [[_ ->]|[_ ->]]; auto.
    + intros z Hz.
      assert (Hm : Z.max x y ≤ foldl Z.max (Z.max x y) xs)
        by (apply Hle, elem_of_cons; auto).
      apply elem_of_cons in Hz as [->|Hz]; [lia|].
      apply elem_of_cons in Hz as [->|Hz]; [lia|].
      apply Hle, elem_of_cons; auto.
Qed.

Lemma is_min_unique m m' xs : is_min m xs → is_min m' xs → m = m'.
Proof. intros [H1 H2] [H3 H4]. apply H2 in H3. apply H4 in H1. lia. Qed.

Lemma is_max_unique m m' xs : is_max m xs → is_max m' xs → m = m'.
Proof. intros [H1 H2] [H3 H4]. apply H2 in H3. apply H4 in H1. lia. Qed.

Lemma py_min_spec (xs : list Z) :
  xs ≠ [] → ∃ m, py_min xs = inr m ∧ is_min m xs.
Proof.
  destruct xs as [|x xs]; [done|]. intros _. eexists. split; [reflexivity|].
  apply foldl_min_spec.
Qed.

Lemma py_max_spec (xs : list Z) :
  xs ≠ [] → ∃ m, py_max xs = inr m ∧ is_max m xs.
Proof.
  destruct xs as [|x xs]; [done|]. intros _. eexists. split; [reflexivity|].
  apply foldl_max_spec.
Qed.

(** ** create_three_color_blinka.py: layers and classification *)

Lemma three_color_layer_contours (scale_factor height : Z) (ps : list Pixel) :
  ThreeColor.create_color_layer_glyph scale_factor height ps
  = (λ p, rectangle_contour (pixel_rectangle scale_factor 50 100 height p)) <$> ps.
Proof.
  unfold ThreeColor.create_color_layer_glyph.
  destruct ps as [|p ps]; [done|]. by rewrite glyph_add_rectangles.
Qed.

Lemma three_color_classify_filter (img : Image) (ps : list Pixel) :
  let g := foldl (ThreeColor.classify_pixel img) ThreeColor.no_groups ps in
  ThreeColor.white_pixels g = filter (is_white img) ps
  ∧ ThreeColor.light_blue_pixels g = filter (is_light_blue img) ps
  ∧ ThreeColor.purple_pixels g = filter (is_other img) ps.
Proof.
  induction ps as [|p ps IH] using rev_ind; [done|].
  rewrite foldl_snoc, !filter_app. cbn zeta in IH.
  destruct IH as (IHw & IHl & IHp).
  set (g := foldl _ _ ps) in *.
  destruct p as [x y]. unfold ThreeColor.classify_pixel.
  rewrite !filter_cons, !filter_nil.
  unfold is_white, is_light_blue, is_other, color_at; simpl.
  repeat case_decide; simpl; rewrite ?app_nil_r;
    try (exfalso; intuition congruence); by rewrite ?IHw, ?IHl, ?IHp.
Qed.

Lemma three_color_groups_partition (img : Image) :
  let g := ThreeColor.separate_pixels img in
  let all_visible :=
    ThreeColor.white_pixels g ++ ThreeColor.light_blue_pixels g
    ++ ThreeColor.purple_pixels g in
  NoDup all_visible
  ∧ ∀ p, p ∈ all_visible ↔ p ∈ scan img ∧ color_at img p ≠ bg_color img.
Proof.
  cbn zeta. unfold ThreeColor.separate_pixels.
  destruct (three_color_classify_filter img (scan img)) as (-> & -> & ->).
  pose proof (NoDup_scan img) as Hnd. split.
  - apply NoDup_app. split; [by apply NoDup_filter|]. split.
    + intros p Hw Hp. apply list_elem_of_filter in Hw as [Hw _].
      apply elem_of_app in Hp as [Hp|Hp];
        apply list_elem_of_filter in Hp as [Hp _];
        unfold is_white, is_light_blue, is_other in *; intuition congruence.
    + apply NoDup_app. split; [by apply NoDup_filter|].
      split; [|by apply NoDup_filter].
      intros p Hl Hp. apply list_elem_of_filter in Hl as [Hl _].
      apply list_elem_of_filter in Hp as [Hp _].
      unfold is_light_blue, is_other in *; intuition congruence.
  - intros p. rewrite !elem_of_app, !list_elem_of_filter.
    unfold is_white, is_light_blue, is_other.
    destruct (decide (color_at img p = ThreeColor.white_rgb));
      destruct (decide (color_at img p = ThreeColor.light_blue_rgb)); tauto.
Qed.

(** C7: the rectangle computed for a pixel determines the pixel: with a
    positive scale factor, dividing [left - x_offset] and
    [bottom - y_offset] by the scale factor gives back [x] and the flipped
    row [height - 1 - y] with no remainder, and computing the rectangle
    again from the same parameters gives the same rectangle, which is the
    one the layer builder draws. *)
Theorem pixel_rectangle_round_trip
    (scale_factor x_offset y_offset height x y left bottom right top : Z) :
  0 < scale_factor →
  pixel_rectangle scale_factor x_offset y_offset height (x, y)
    = mkRect left bottom right top →
  (left - x_offset) / scale_factor = x
  ∧ (left - x_offset) mod scale_factor = 0
  ∧ (bottom - y_offset) / scale_factor = height - 1 - y
  ∧ (bottom - y_offset) mod scale_factor = 0
  ∧ pixel_rectangle scale_factor x_offset y_offset height
      ((left - x_offset) / scale_factor,
       height - 1 - (bottom - y_offset) / scale_factor)
    = mkRect left bottom right top
  ∧ ThreeColor.create_color_layer_glyph scale_factor height [(x, y)]
    = [rectangle_contour (pixel_rectangle scale_factor 50 100 height (x, y))].
Proof.
  intros Hsf Hmap. unfold pixel_rectangle in Hmap.
  injection Hmap as Hl Hb Hr Ht.
  assert (H1 : (left - x_offset) / scale_factor = x).
  { rewrite <- Hl. replace (x * scale_factor + x_offset - x_offset)
      with (x * scale_factor) by lia. apply Z.div_mul; lia. }
  assert (H2 : (bottom - y_offset) / scale_factor = height - 1 - y).
  { rewrite <- Hb.
    replace ((height - 1 - y) * scale_factor + y_offset - y_offset)
      with ((height - 1 - y) * scale_factor) by lia. apply Z.div_mul; lia. }
  split; [exact H1|]. split.
  { rewrite <- Hl. replace (x * scale_factor + x_offset - x_offset)
      with (x * scale_factor) by lia. apply Z.mod_mul; lia. }
  split; [exact H2|]. split.
  { rewrite <- Hb.
    replace ((height - 1 - y) * scale_factor + y_offset - y_offset)
      with ((height - 1 - y) * scale_factor) by lia. apply Z.mod_mul; lia. }
  split.
  { rewrite H1, H2. unfold pixel_rectangle. f_equal; lia. }
  by rewrite three_color_layer_contours.
Qed.

Lemma pixel_rectangle_round_trip_witness :
  (50 - 50) / 4 = 0
  ∧ (50 - 50) mod 4 = 0
  ∧ (104 - 100) / 4 = 2 - 1 - 0
  ∧ (104 - 100) mod 4 = 0
  ∧ pixel_rectangle 4 50 100 2 ((50 - 50) / 4, 2 - 1 - (104 - 100) / 4)
    = mkRect 50 104 54 108
  ∧ ThreeColor.create_color_layer_glyph 4 2 [(0, 0)]
    = [rectangle_contour (pixel_rectangle 4 50 100 2 (0, 0))].
Proof.
  apply (pixel_rectangle_round_trip 4 50 100 2 0 0 50 104 54 108);
    [lia | reflexivity].
Defined.

(** ** create_three_color_blinka.py: bounds and metrics *)

Lemma three_color_all_background (img : Image) (g : ThreeColor.Groups) (ps : list Pixel) :
  (∀ p, p ∈ ps → color_at img p = bg_color img) →
  foldl (ThreeColor.classify_pixel img) g ps = g.
Proof.
  revert g; induction ps as [|[x y] ps IH]; intros g Hbg; [done|].
  simpl. assert (Hp : getpixel img x y = bg_color img).
  { apply (Hbg (x, y)), elem_of_cons; auto. }
  rewrite decide_True by done. apply IH.
  intros p Hin. apply Hbg, elem_of_cons; auto.
Qed.

(** C6: on an image all of whose pixels have the background colour the
    three-colour script raises nothing: the four pixel lists stay empty,
    the three layer glyphs have no contour, the outline glyph is the
    fallback rectangle from (50, 100) to (50 + scaled_width,
    100 + scaled_height), and the advance width is scaled_width + 100. *)
Theorem all_background_image_builds (img : Image) :
  (∀ p, p ∈ scan img → color_at img p = bg_color img) →
  ThreeColor.create_three_color_blinka img
  = inr (ThreeColor.mkOutput
           (ThreeColor.mkGroups [] [] [] [])
           [rectangle_contour
              (mkRect 50 100 (50 + original_width img * 4)
                             (100 + original_height img * 4))]
           [] [] []
           (original_width img * 4 + 100)).
Proof.
  intros Hbg. unfold ThreeColor.create_three_color_blinka.
  unfold ThreeColor.separate_pixels.
  rewrite three_color_all_background by done. reflexivity.
Qed.

Lemma all_background_image_builds_witness :
  ThreeColor.create_three_color_blinka blank_2x2
  = inr (ThreeColor.mkOutput
           (ThreeColor.mkGroups [] [] [] [])
           [rectangle_contour (mkRect 50 100 (50 + 2 * 4) (100 + 2 * 4))]
           [] [] []
           (2 * 4 + 100)).
Proof.
  apply (all_background_image_builds blank_2x2).
  intros p Hp. vm_compute in Hp.
  repeat (apply elem_of_cons in Hp as [->|Hp]; [reflexivity|]).
  by apply elem_of_nil in Hp.
Defined.

Lemma is_min_mono m m' xs xs' :
  is_min m xs → is_min m' xs' → (∀ z, z ∈ xs → z ∈ xs') → m' ≤ m.
Proof. intros [Hin _] [_ Hle] Hsub. apply Hle, Hsub, Hin. Qed.

Lemma is_max_mono m m' xs xs' :
  is_max m xs → is_max m' xs' → (∀ z, z ∈ xs → z ∈ xs') → m ≤ m'.
Proof. intros [Hin _] [_ Hle] Hsub. apply Hle, Hsub, Hin. Qed.

Lemma is_min_below m m' v xs xs' :
  is_min m xs → is_min m' xs' → v ∈ xs' → (∀ z, z ∈ xs → v < z) → m' < m.
Proof.
  intros [Hin _] [_ Hle] Hv Hlt. apply Hle in Hv. apply Hlt in Hin. lia.
Qed.

Lemma is_max_above m m' v xs xs' :
  is_max m xs → is_max m' xs' → v ∈ xs' → (∀ z, z ∈ xs → z < v) → m < m'.
Proof.
  intros [Hin _] [_ Hle] Hv Hlt. apply Hle in Hv. apply Hlt in Hin. lia.
Qed.

Lemma three_color_outline_nonempty (sf w h : Z) (ps : list Pixel) :
  ps ≠ [] →
  ∃ min_x max_x min_y max_y,
    is_min min_x (ps.*1) ∧ is_max max_x (ps.*1)
    ∧ is_min min_y ((λ p : Pixel, h - 1 - p.2) <$> ps)
    ∧ is_max max_y ((λ p : Pixel, h - 1 - p.2) <$> ps)
    ∧ ThreeColor.base_outline_rectangle sf w h ps
      = inr (mkRect (min_x * sf + 50) (min_y * sf + 100)
                    ((max_x + 1) * sf + 50) ((max_y + 1) * sf + 100)).
Proof.
  intros Hne.
  assert (H1 : ps.*1 ≠ []) by (by destruct ps).
  assert (H2 : (λ p : Pixel, h - 1 - p.2) <$> ps ≠ []) by (by destruct ps).
  destruct (py_min_spec _ H1) as (min_x & Emin_x & Hmin_x).
  destruct (py_max_spec _ H1) as (max_x & Emax_x & Hmax_x).
  destruct (py_min_spec _ H2) as (min_y & Emin_y & Hmin_y).
  destruct (py_max_spec _ H2) as (max_y & Emax_y & Hmax_y).
  exists min_x, max_x, min_y, max_y. repeat (split; [done|]).
  unfold ThreeColor.base_outline_rectangle.
  destruct ps as [|p ps]; [done|].
  by rewrite Emin_x, Emax_x, Emin_y, Emax_y.
Qed.

Lemma three_color_width_nonempty (sf w : Z) (ps : list Pixel) (mn mx : Z) :
  is_min mn (ps.*1) → is_max mx (ps.*1) →
  ThreeColor.glyph_width sf w ps = inr ((mx - mn + 2) * sf + 100).
Proof.
  intros Hmn Hmx.
  assert (H1 : ps.*1 ≠ []).
  { destruct Hmn as [Hin _]. destruct ps; [by apply elem_of_nil in Hin | done]. }
  destruct (py_min_spec _ H1) as (min_x & Emin_x & Hmin_x).
  destruct (py_max_spec _ H1) as (max_x & Emax_x & Hmax_x).
  rewrite (is_min_unique _ _ _ Hmn Hmin_x), (is_max_unique _ _ _ Hmx Hmax_x).
  unfold ThreeColor.glyph_width. destruct ps as [|p ps]; [done|].
  by rewrite Emin_x, Emax_x.
Qed.

Lemma seventeen_bounds_nonempty (ps : list Pixel) :
  ps ≠ [] →
  ∃ b, Seventeen.overall_bounds ps = inr b
    ∧ is_min (Seventeen.min_x b) (ps.*1) ∧ is_max (Seventeen.max_x b) (ps.*1)
    ∧ is_min (Seventeen.min_y b) (ps.*2) ∧ is_max (Seventeen.max_y b) (ps.*2).
Proof.
  intros Hne.
  assert (H1 : ps.*1 ≠ []) by (by destruct ps).
  assert (H2 : ps.*2 ≠ []) by (by destruct ps).
  destruct (py_min_spec _ H1) as (min_x & Emin_x & Hmin_x).
  destruct (py_max_spec _ H1) as (max_x & Emax_x & Hmax_x).
  destruct (py_min_spec _ H2) as (min_y & Emin_y & Hmin_y).
  destruct (py_max_spec _ H2) as (max_y & Emax_y & Hmax_y).
  exists (Seventeen.mkBounds min_x max_x min_y max_y).
  unfold Seventeen.overall_bounds.
  by rewrite Emin_x, Emax_x, Emin_y, Emax_y.
Qed.

Lemma elem_of_insert_middle {A} (x y : A) (l1 l2 : list A) :
  x ∈ l1 ++ l2 → x ∈ l1 ++ y :: l2.
Proof. rewrite !elem_of_app, elem_of_cons. tauto. Qed.

(** C8: inserting a pixel into a non-empty visible list never shrinks the
    outline rectangle nor the advance width, and when the pixel lies
    strictly outside the x-range or the y-range of the list the new
    outline rectangle strictly encloses the old one. *)
Theorem bounds_grow_with_pixels (sf w h : Z) (ps1 ps2 : list Pixel) (p : Pixel) :
  0 < sf →
  ps1 ++ ps2 ≠ [] →
  ∃ old new width_old width_new,
    ThreeColor.base_outline_rectangle sf w h (ps1 ++ ps2) = inr old
    ∧ ThreeColor.base_outline_rectangle sf w h (ps1 ++ p :: ps2) = inr new
    ∧ ThreeColor.glyph_width sf w (ps1 ++ ps2) = inr width_old
    ∧ ThreeColor.glyph_width sf w (ps1 ++ p :: ps2) = inr width_new
    ∧ encloses new old
    ∧ width_old ≤ width_new
    ∧ (outside_extent p (ps1 ++ ps2) → strictly_encloses new old).
Proof.
  intros Hsf Hne.
  assert (Hne' : ps1 ++ p :: ps2 ≠ []) by (by destruct ps1).
  destruct (three_color_outline_nonempty sf w h _ Hne)
    as (a & b & c & d & Ha & Hb & Hc & Hd & Eold).
  destruct (three_color_outline_nonempty sf w h _ Hne')
    as (a' & b' & c' & d' & Ha' & Hb' & Hc' & Hd' & Enew).
  set (flip := λ q : Pixel, h - 1 - q.2) in *.
  assert (Hsub1 : ∀ z, z ∈ (ps1 ++ ps2).*1 → z ∈ (ps1 ++ p :: ps2).*1).
  { intros z Hz. apply list_elem_of_fmap in Hz as (q & -> & Hq).
    by apply list_elem_of_fmap_2, elem_of_insert_middle. }
  assert (Hsub2 : ∀ z, z ∈ flip <$> ps1 ++ ps2 → z ∈ flip <$> ps1 ++ p :: ps2).
  { intros z Hz. apply list_elem_of_fmap in Hz as (q & -> & Hq).
    by apply list_elem_of_fmap_2, elem_of_insert_middle. }
  assert (Hp : p ∈ ps1 ++ p :: ps2).
  { apply elem_of_app. right. apply elem_of_cons. by left. }
  pose proof (is_min_mono _ _ _ _ Ha Ha' Hsub1) as La.
  pose proof (is_max_mono _ _ _ _ Hb Hb' Hsub1) as Lb.
  pose proof (is_min_mono _ _ _ _ Hc Hc' Hsub2) as Lc.
  pose proof (is_max_mono _ _ _ _ Hd Hd' Hsub2) as Ld.
  eexists _, _, _, _.
  split; [exact Eold|]. split; [exact Enew|].
  split; [exact (three_color_width_nonempty sf w _ _ _ Ha Hb)|].
  split; [exact (three_color_width_nonempty sf w _ _ _ Ha' Hb')|].
  split; [unfold encloses; simpl; nia|].
  split; [nia|].
  intros Hout. split; [unfold encloses; simpl; nia|].
  intros Heq. injection Heq as E1 E2 E3 E4.
  destruct Hout as [Hout|[Hout|[Hout|Hout]]].
  - assert (a' < a); [|nia].
    apply (is_min_below _ _ p.1 _ _ Ha Ha'); [by apply list_elem_of_fmap_2|].
    intros z Hz. apply list_elem_of_fmap in Hz as (q & -> & Hq). by apply Hout.
  - assert (b < b'); [|nia].
    apply (is_max_above _ _ p.1 _ _ Hb Hb'); [by apply list_elem_of_fmap_2|].
    intros z Hz. apply list_elem_of_fmap in Hz as (q & -> & Hq). by apply Hout.
  - assert (d < d'); [|nia].
    apply (is_max_above _ _ (flip p) _ _ Hd Hd');
      [by apply (list_elem_of_fmap_2 flip)|].
    intros z Hz. apply list_elem_of_fmap in Hz as (q & -> & Hq).
    apply Hout in Hq. unfold flip. lia.
  - assert (c' < c); [|nia].
    apply (is_min_below _ _ (flip p) _ _ Hc Hc');
      [by apply (list_elem_of_fmap_2 flip)|].
    intros z Hz. apply list_elem_of_fmap in Hz as (q & -> & Hq).
    apply Hout in Hq. unfold flip. lia.
Qed.

Lemma bounds_grow_with_pixels_witness :
  ∃ old new width_old width_new,
    ThreeColor.base_outline_rectangle 4 16 16 ([(3, 5)] ++ [(4, 6)]) = inr old
    ∧ ThreeColor.base_outline_rectangle 4 16 16 ([(3, 5)] ++ (7, 5) :: [(4, 6)])
      = inr new
    ∧ ThreeColor.glyph_width 4 16 ([(3, 5)] ++ [(4, 6)]) = inr width_old
    ∧ ThreeColor.glyph_width 4 16 ([(3, 5)] ++ (7, 5) :: [(4, 6)]) = inr width_new
    ∧ encloses new old
    ∧ width_old ≤ width_new
    ∧ (outside_extent (7, 5) ([(3, 5)] ++ [(4, 6)]) → strictly_encloses new old).
Proof.
  apply (bounds_grow_with_pixels 4 16 16 [(3, 5)] [(4, 6)] (7, 5)); [lia | done].
Defined.

(** C10: for a non-empty visible list whose least and greatest raw x
    coordinates are [mn] and [mx], the advance width is
    [(mx - mn + 2) * scale_factor + 100], in the three-colour script and,
    with scale factor 4, in the seventeen-colour script; hence any other
    list with the same least and greatest x gets the same advance width,
    whatever its y coordinates and its length. *)
Theorem advance_width_from_x_extent (sf w : Z) (ps ps' : list Pixel) (mn mx : Z) :
  is_min mn (ps.*1) → is_max mx (ps.*1) →
  is_min mn (ps'.*1) → is_max mx (ps'.*1) →
  ThreeColor.glyph_width sf w ps = inr ((mx - mn + 2) * sf + 100)
  ∧ ThreeColor.glyph_width sf w ps' = ThreeColor.glyph_width sf w ps
  ∧ (∃ b, Seventeen.overall_bounds ps = inr b
        ∧ Seventeen.glyph_width b = (mx - mn + 2) * 4 + 100)
  ∧ (∃ b', Seventeen.overall_bounds ps' = inr b'
        ∧ Seventeen.glyph_width b' = (mx - mn + 2) * 4 + 100).
Proof.
  intros Hmn Hmx Hmn' Hmx'.
  rewrite (three_color_width_nonempty sf w ps mn mx) by done.
  rewrite (three_color_width_nonempty sf w ps' mn mx) by done.
  split; [done|]. split; [done|].
  assert (Hseventeen : ∀ qs, is_min mn (qs.*1) → is_max mx (qs.*1) →
            ∃ b, Seventeen.overall_bounds qs = inr b
               ∧ Seventeen.glyph_width b = (mx - mn + 2) * 4 + 100).
  { intros qs Hqmn Hqmx.
    assert (Hne : qs ≠ []).
    { destruct Hqmn as [Hin _]. destruct qs; [by apply elem_of_nil in Hin | done]. }
    destruct (seventeen_bounds_nonempty qs Hne) as (b & Eb & Hb1 & Hb2 & _).
    exists b. split; [done|]. unfold Seventeen.glyph_width.
    by rewrite (is_min_unique _ _ _ Hqmn Hb1), (is_max_unique _ _ _ Hqmx Hb2). }
  split; by apply Hseventeen.
Qed.

Lemma advance_width_from_x_extent_witness :
  ThreeColor.glyph_width 4 16 [(2, 9); (5, 1); (3, 3)] = inr ((5 - 2 + 2) * 4 + 100)
  ∧ ThreeColor.glyph_width 4 16 [(5, 0); (2, 0)]
    = ThreeColor.glyph_width 4 16 [(2, 9); (5, 1); (3, 3)]
  ∧ (∃ b, Seventeen.overall_bounds [(2, 9); (5, 1); (3, 3)] = inr b
        ∧ Seventeen.glyph_width b = (5 - 2 + 2) * 4 + 100)
  ∧ (∃ b', Seventeen.overall_bounds [(5, 0); (2, 0)] = inr b'
        ∧ Seventeen.glyph_width b' = (5 - 2 + 2) * 4 + 100).
Proof.
  apply (advance_width_from_x_extent 4 16 [(2, 9); (5, 1); (3, 3)] [(5, 0); (2, 0)] 2 5);
    (split; [vm_compute; repeat constructor
            | intros z Hz; vm_compute in Hz;
              repeat (apply elem_of_cons in Hz as [->|Hz]; [lia|]);
              by apply elem_of_nil in Hz]).
Defined.

Lemma scenario_A_origin_is_background :
  bg_color scenario_A_image = (128, 32, 192)
  ∧ ThreeColor.create_three_color_blinka scenario_A_image
    = inr (ThreeColor.mkOutput
             (ThreeColor.mkGroups [] [] [(1, 0); (0, 1); (1, 1)]
                [(1, 0, (0, 0, 0)); (0, 1, (0, 0, 0)); (1, 1, (0, 0, 0))])
             [rectangle_contour (mkRect 50 100 58 108)]
             [rectangle_contour (mkRect 54 104 58 108);
              rectangle_contour (mkRect 50 100 54 104);
              rectangle_contour (mkRect 54 100 58 104)]
             [] [] 112)
  ∧ ¬ scenario_A_expected scenario_A_image.
Proof.
  assert (E : ThreeColor.create_three_color_blinka scenario_A_image
    = inr (ThreeColor.mkOutput
             (ThreeColor.mkGroups [] [] [(1, 0); (0, 1); (1, 1)]
                [(1, 0, (0, 0, 0)); (0, 1, (0, 0, 0)); (1, 1, (0, 0, 0))])
             [rectangle_contour (mkRect 50 100 58 108)]
             [rectangle_contour (mkRect 54 104 58 108);
              rectangle_contour (mkRect 50 100 54 104);
              rectangle_contour (mkRect 54 100 58 104)]
             [] [] 112)) by (vm_compute; reflexivity).
  split; [reflexivity|]. split; [exact E|].
  intros (out & Hout & Hpixels & _). rewrite E in Hout.
  injection Hout as <-. simpl in Hpixels. discriminate.
Qed.

(** C2: the background colour is read from the origin pixel, so the
    origin is never a visible pixel.  With the purple pixel at (1, 0)
    instead, on a 2x2 image whose other pixels are black, the run yields
    the purple list [(1, 0)] and empty white and light-blue lists, and the
    purple layer is the single rectangle left=54, bottom=104, right=58,
    top=108; the rectangle left=50, bottom=104, right=54, top=108 is what
    the layer builder draws for the pixel list [(0, 0)]. *)
Theorem scenario_A_single_pixel :
  bg_color scenario_A_shifted = (0, 0, 0)
  ∧ ThreeColor.create_three_color_blinka scenario_A_shifted
    = inr (ThreeColor.mkOutput
             (ThreeColor.mkGroups [] [] [(1, 0)] [])
             [rectangle_contour (mkRect 54 104 58 108)]
             [rectangle_contour (mkRect 54 104 58 108)]
             [] [] 108)
  ∧ ThreeColor.create_color_layer_glyph 4 2 [(0, 0)]
    = [rectangle_contour (mkRect 50 104 54 108)]
  ∧ ∀ img : Image,
      let g := ThreeColor.separate_pixels img in
      (0, 0) ∉ ThreeColor.white_pixels g ++ ThreeColor.light_blue_pixels g
               ++ ThreeColor.purple_pixels g.
Proof.
  split; [reflexivity|]. split; [by vm_compute|]. split; [reflexivity|].
  intros img g Hin.
  apply (three_color_groups_partition img) in Hin as [_ Hbg]. by apply Hbg.
Qed.

(** ** create_final_seventeen_color_blinka.py: classification *)

Lemma match_color_spec (rgb : RGB) (p : Pixel) (colors : list RGB)
    (groups : gmap RGB (list Pixel)) :
  Seventeen.match_color rgb p colors groups
  = inr (if decide (rgb ∈ colors)
         then <[rgb := default [] (groups !! rgb) ++ [p]]> groups
         else groups).
Proof.
  induction colors as [|color colors IH]; cbn [Seventeen.match_color].
  - rewrite decide_False; [done | apply not_elem_of_nil].
  - destruct (decide (rgb = color)) as [->|Hne].
    + destruct (decide (color ∈ color :: colors)) as [_|Hn];
        [|exfalso; apply Hn, elem_of_cons; auto].
      unfold dict_get. destruct (groups !! color) as [l|] eqn:E.
      * destruct (decide (Some l = None)) as [?|_]; [done|]. by rewrite E.
      * destruct (decide (None = None)) as [_|?]; [|done].
        rewrite lookup_insert_eq. simpl. by rewrite insert_insert_eq.
    + rewrite IH. destruct (decide (rgb ∈ colors)) as [Hin|Hnin].
      * destruct (decide (rgb ∈ color :: colors)) as [_|Hn]; [done|].
        exfalso; apply Hn, elem_of_cons; auto.
      * destruct (decide (rgb ∈ color :: colors)) as [Hin|_]; [|done].
        apply elem_of_cons in Hin as [?|?]; contradiction.
Qed.

Lemma group_of_snoc_same (img : Image) (c : RGB) (ps : list Pixel) (p : Pixel) :
  color_at img p ≠ bg_color img → color_at img p = c →
  group_of img c (ps ++ [p]) = group_of img c ps ++ [p].
Proof.
  intros Hbg Hc. unfold group_of. rewrite filter_app, filter_cons, filter_nil.
  by rewrite decide_True.
Qed.

Lemma group_of_snoc_other (img : Image) (c : RGB) (ps : list Pixel) (p : Pixel) :
  color_at img p ≠ c →
  group_of img c (ps ++ [p]) = group_of img c ps.
Proof.
  intros Hc. unfold group_of. rewrite filter_app, filter_cons, filter_nil.
  rewrite decide_False by tauto. apply app_nil_r.
Qed.

Lemma group_of_snoc_background (img : Image) (c : RGB) (ps : list Pixel) (p : Pixel) :
  color_at img p = bg_color img →
  group_of img c (ps ++ [p]) = group_of img c ps.
Proof.
  intros Hc. unfold group_of. rewrite filter_app, filter_cons, filter_nil.
  rewrite decide_False by tauto. apply app_nil_r.
Qed.

Lemma seventeen_classify_spec (img : Image) (ps : list Pixel) :
  ∃ st, for_each (Seventeen.classify_pixel img) Seventeen.empty_scan ps = inr st
      ∧ seventeen_state img ps st.
Proof.
  induction ps as [|p ps IH] using rev_ind.
  - exists Seventeen.empty_scan. split; [done|]. split; [done|].
    intros c. simpl. rewrite lookup_empty, decide_False; [done|]. by intros [_ ?].
  - destruct IH as (st & Est & Hvis & Hgroups).
    rewrite for_each_app, Est. simpl.
    destruct p as [x y]. unfold Seventeen.classify_pixel.
    change (getpixel img x y) with (color_at img (x, y)).
    set (p := (x, y)). set (rgb := color_at img p).
    destruct (decide (rgb = bg_color img)) as [Hbg|Hbg].
    + exists st. split; [done|]. split.
      * rewrite Hvis. unfold visible.
        rewrite filter_app, filter_cons, filter_nil, decide_False by tauto.
        by rewrite app_nil_r.
      * intros c. rewrite Hgroups. by rewrite group_of_snoc_background.
    + rewrite match_color_spec. simpl. eexists. split; [reflexivity|].
      split; simpl.
      * rewrite Hvis. unfold visible.
        rewrite filter_app, filter_cons, filter_nil. by rewrite decide_True.
      * intros c. destruct (decide (rgb ∈ Seventeen.seventeen_colors)) as [Hin|Hnin].
        -- destruct (decide (c = rgb)) as [->|Hc].
           ++ rewrite lookup_insert_eq.
              rewrite (group_of_snoc_same img rgb ps p) by done.
              rewrite decide_True by (split; [done | by destruct (group_of img rgb ps)]).
              f_equal. f_equal. rewrite Hgroups.
              destruct (decide _) as [_|Hn]; [done|].
              destruct (group_of img rgb ps); [done|].
              exfalso. apply Hn. done.
           ++ rewrite lookup_insert_ne by done. rewrite Hgroups.
              by rewrite group_of_snoc_other.
        -- rewrite Hgroups. destruct (decide (c = rgb)) as [->|Hc].
           ++ rewrite !decide_False by tauto. done.
           ++ by rewrite group_of_snoc_other.
Qed.

Lemma seventeen_separate_pixels_spec (img : Image) :
  ∃ st, Seventeen.separate_pixels img = inr st ∧ seventeen_state img (scan img) st.
Proof. apply seventeen_classify_spec. Qed.

Lemma elem_of_group_of (img : Image) (c : RGB) (ps : list Pixel) (p : Pixel) :
  p ∈ group_of img c ps
  ↔ p ∈ ps ∧ color_at img p ≠ bg_color img ∧ color_at img p = c.
Proof. unfold group_of. rewrite list_elem_of_filter. tauto. Qed.

Lemma seventeen_group_lookup (img : Image) (ps : list Pixel) (st : Seventeen.Scan)
    (c : RGB) (l : list Pixel) :
  seventeen_state img ps st →
  Seventeen.color_pixel_groups st !! c = Some l →
  c ∈ Seventeen.seventeen_colors ∧ l = group_of img c ps.
Proof.
  intros [_ Hgroups] Hl. rewrite Hgroups in Hl.
  destruct (decide _) as [[Hc _]|_]; [|done]. by injection Hl as <-.
Qed.

(** ** create_final_seventeen_color_blinka.py: layers *)

Lemma spacers_to_add_filter (b : Seventeen.Bounds) (ps : list Pixel) (ns : bool) :
  Seventeen.spacers_to_add b ps ns
  = if ns && bool_decide (ps ≠ [])
    then filter (λ s, s ∉ ps)
           [ (Seventeen.min_x b, Seventeen.min_y b);
             (Seventeen.max_x b, Seventeen.max_y b) ]
    else [].
Proof.
  unfold Seventeen.spacers_to_add. destruct (ns && bool_decide (ps ≠ [])); [|done].
  simpl. rewrite !filter_cons, filter_nil. by repeat case_decide.
Qed.

Lemma spacers_not_pixels (b : Seventeen.Bounds) (ps : list Pixel) (ns : bool) (p : Pixel) :
  p ∈ Seventeen.spacers_to_add b ps ns → p ∉ ps.
Proof.
  rewrite spacers_to_add_filter. destruct (ns && bool_decide (ps ≠ [])).
  - by intros [? _]%list_elem_of_filter.
  - by intros ?%elem_of_nil.
Qed.

Lemma spacers_length (b : Seventeen.Bounds) (ps : list Pixel) (ns : bool) :
  (length (Seventeen.spacers_to_add b ps ns) ≤ 2)%nat.
Proof.
  rewrite spacers_to_add_filter. destruct (ns && bool_decide (ps ≠ [])); simpl; [|lia].
  etrans; [apply length_filter|]. done.
Qed.

Lemma layer_rectangle_pixel (h : Z) (spacers : list Pixel) (p : Pixel) :
  p ∉ spacers →
  Seventeen.layer_rectangle h spacers p = pixel_rectangle 4 50 100 h p.
Proof.
  intros Hp. destruct p as [x y]. unfold Seventeen.layer_rectangle.
  by rewrite bool_decide_eq_false_2.
Qed.

Lemma layer_rectangle_spacer (h : Z) (spacers : list Pixel) (p : Pixel) :
  p ∈ spacers →
  Seventeen.layer_rectangle h spacers p = spacer_rectangle h p.
Proof.
  intros Hp. destruct p as [x y]. unfold Seventeen.layer_rectangle.
  by rewrite bool_decide_eq_true_2.
Qed.

Lemma seventeen_layer_drawing (h : Z) (b : Seventeen.Bounds) (ps : list Pixel) (ns : bool) :
  layer_drawing h b ps ns
  = ((λ p, (p, pixel_rectangle 4 50 100 h p)) <$> ps)
    ++ ((λ p, (p, spacer_rectangle h p)) <$> Seventeen.spacers_to_add b ps ns).
Proof.
  unfold layer_drawing, Seventeen.all_layer_pixels.
  rewrite fmap_app. f_equal.
  - apply list_fmap_ext. intros i p Hp. f_equal.
    apply layer_rectangle_pixel. intros Hs.
    apply spacers_not_pixels in Hs. apply Hs. by eapply list_elem_of_lookup_2.
  - apply list_fmap_ext. intros i p Hp. f_equal.
    apply layer_rectangle_spacer. by eapply list_elem_of_lookup_2.
Qed.

Lemma seventeen_layer_glyph_drawing (h : Z) (b : Seventeen.Bounds) (ps : list Pixel) (ns : bool) :
  Seventeen.create_layer_with_smart_spacers h b ps ns
  = (λ d : Pixel * Rectangle, rectangle_contour d.2) <$> layer_drawing h b ps ns.
Proof.
  unfold Seventeen.create_layer_with_smart_spacers, layer_drawing.
  rewrite glyph_add_rectangles. simpl. by rewrite <- list_fmap_compose.
Qed.

Lemma seventeen_layer_contours (h : Z) (b : Seventeen.Bounds) (ps : list Pixel) (ns : bool) :
  Seventeen.create_layer_with_smart_spacers h b ps ns
  = ((λ p, rectangle_contour (pixel_rectangle 4 50 100 h p)) <$> ps)
    ++ ((λ p, rectangle_contour (spacer_rectangle h p))
          <$> Seventeen.spacers_to_add b ps ns).
Proof.
  rewrite seventeen_layer_glyph_drawing, seventeen_layer_drawing.
  by rewrite fmap_app, <- !list_fmap_compose.
Qed.

Lemma two_eyes_run :
  ∃ out,
    Seventeen.create_final_seventeen_color_blinka two_eyes_image = inr out
    ∧ Seventeen.bounds out = Seventeen.mkBounds 1 1 0 1
    ∧ Seventeen.layer_inputs (Seventeen.scanned out) !! 1%nat = Some ([(1, 0)], true)
    ∧ Seventeen.layer_glyphs out !! 1%nat
      = Some [ rectangle_contour (mkRect 54 104 58 108);
               rectangle_contour (mkRect 54 100 55 101) ].
Proof. eexists. split; [by vm_compute|]. by vm_compute. Qed.

(** The white layer of the two-eyes image is built from the one pixel
    (1, 0) and has two contours: the second is the 1x1 boundary spacer at
    the corner (max_x, max_y) = (1, 1). *)
Lemma smart_spacers_add_contours :
  (∃ out,
    Seventeen.create_final_seventeen_color_blinka two_eyes_image = inr out
    ∧ Seventeen.bounds out = Seventeen.mkBounds 1 1 0 1
    ∧ Seventeen.layer_inputs (Seventeen.scanned out) !! 1%nat = Some ([(1, 0)], true)
    ∧ Seventeen.layer_glyphs out !! 1%nat
      = Some [ rectangle_contour (mkRect 54 104 58 108);
               rectangle_contour (mkRect 54 100 55 101) ])
  ∧ length (Seventeen.create_layer_with_smart_spacers 2
              (Seventeen.mkBounds 1 1 0 1) [(1, 0)] true)
    ≠ length [(1, 0)].
Proof. split; [apply two_eyes_run | by vm_compute]. Qed.

(** C5: the three-colour layer builder returns exactly one closed
    4-point rectangle contour per pixel, in list order, so [n] pixels give
    [n] contours and the empty list gives the empty glyph.  The
    seventeen-colour builder returns these contours followed by one 1x1
    spacer contour for each of the two overall-bounds corners that is not
    in the list, and only when the layer asks for spacers and the list is
    not empty; so [n] pixels give between [n] and [n + 2] contours, and
    the empty list again gives the empty glyph. *)
Theorem layer_contours_per_pixel (sf h : Z) (b : Seventeen.Bounds)
    (ps : list Pixel) (ns : bool) :
  ThreeColor.create_color_layer_glyph sf h ps
    = (λ p, rectangle_contour (pixel_rectangle sf 50 100 h p)) <$> ps
  ∧ length (ThreeColor.create_color_layer_glyph sf h ps) = length ps
  ∧ ThreeColor.create_color_layer_glyph sf h [] = []
  ∧ Seventeen.create_layer_with_smart_spacers h b ps ns
    = ((λ p, rectangle_contour (pixel_rectangle 4 50 100 h p)) <$> ps)
      ++ ((λ p, rectangle_contour (spacer_rectangle h p))
            <$> Seventeen.spacers_to_add b ps ns)
  ∧ Seventeen.spacers_to_add b ps ns
    = (if ns && bool_decide (ps ≠ [])
       then filter (λ s, s ∉ ps)
              [ (Seventeen.min_x b, Seventeen.min_y b);
                (Seventeen.max_x b, Seventeen.max_y b) ]
       else [])
  ∧ (length ps ≤ length (Seventeen.create_layer_with_smart_spacers h b ps ns)
     ≤ length ps + 2)%nat
  ∧ Seventeen.create_layer_with_smart_spacers h b [] ns = [].
Proof.
  split; [apply three_color_layer_contours|].
  split; [by rewrite three_color_layer_contours, length_fmap|].
  split; [done|].
  split; [apply seventeen_layer_contours|].
  split; [apply spacers_to_add_filter|].
  split.
  - rewrite seventeen_layer_contours, length_app, !length_fmap.
    pose proof (spacers_length b ps ns). lia.
  - rewrite seventeen_layer_contours, spacers_to_add_filter.
    by rewrite andb_false_r.
Qed.

(** ** Coordinates across the layers of one character *)

Lemma three_color_runs (img : Image) :
  ∃ out, ThreeColor.create_three_color_blinka img = inr out
    ∧ ThreeColor.groups out = ThreeColor.separate_pixels img
    ∧ ThreeColor.blinka_purple out
      = ThreeColor.create_color_layer_glyph 4 (original_height img)
          (ThreeColor.purple_pixels (ThreeColor.separate_pixels img))
    ∧ ThreeColor.blinka_white out
      = ThreeColor.create_color_layer_glyph 4 (original_height img)
          (ThreeColor.white_pixels (ThreeColor.separate_pixels img))
    ∧ ThreeColor.blinka_lightblue out
      = ThreeColor.create_color_layer_glyph 4 (original_height img)
          (ThreeColor.light_blue_pixels (ThreeColor.separate_pixels img)).
Proof.
  unfold ThreeColor.create_three_color_blinka, ThreeColor.create_base_outline_glyph.
  set (g := ThreeColor.separate_pixels img).
  set (all_visible := ThreeColor.white_pixels g ++ _).
  destruct (decide (all_visible = [])) as [E|Hne].
  - rewrite E. simpl. eexists. split; [reflexivity|]. done.
  - destruct (three_color_outline_nonempty ThreeColor.scale_factor
                (original_width img) (original_height img) _ Hne)
      as (a & b & c & d & Ha & Hb & _ & _ & E).
    rewrite E. simpl.
    rewrite (three_color_width_nonempty _ _ _ _ _ Ha Hb). simpl.
    eexists. split; [reflexivity|]. done.
Qed.

Lemma compensated_rectangle_offset (h compensation : Z) (p : Pixel) :
  Compensated.compensated_rectangle h compensation p
  = pixel_rectangle 4 (50 + compensation) 100 h p.
Proof.
  destruct p as [x y].
  unfold Compensated.compensated_rectangle, pixel_rectangle,
    Compensated.scale_factor, Compensated.base_offset.
  f_equal; lia.
Qed.

Lemma compensated_layer_contours (h compensation : Z) (ps : list Pixel) :
  Compensated.create_compensated_color_layer_glyph h ps compensation
  = (λ p, rectangle_contour (pixel_rectangle 4 (50 + compensation) 100 h p)) <$> ps.
Proof.
  unfold Compensated.create_compensated_color_layer_glyph.
  destruct ps as [|p ps]; [done|]. rewrite glyph_add_rectangles. simpl.
  rewrite compensated_rectangle_offset. f_equal.
  apply list_fmap_ext. intros i q _. by rewrite compensated_rectangle_offset.
Qed.

(** In the two-eyes image the pixel (1, 1) is drawn by the base layer and
    by the light-blue layer as the 4x4 rectangle (54, 100, 58, 104), and
    by the white layer as the 1x1 spacer (54, 100, 55, 101). *)
Lemma spacer_rectangles_diverge :
  ∃ out,
    Seventeen.create_final_seventeen_color_blinka two_eyes_image = inr out
    ∧ let ds := seventeen_drawings (original_height two_eyes_image)
                  (Seventeen.bounds out) (Seventeen.scanned out) in
      Seventeen.layer_glyphs out
        = (λ l : list (Pixel * Rectangle),
             (λ d : Pixel * Rectangle, rectangle_contour d.2) <$> l) <$> ds
      ∧ ds !! 0%nat
        = Some [ ((1, 0), mkRect 54 104 58 108); ((1, 1), mkRect 54 100 58 104) ]
      ∧ ds !! 1%nat
        = Some [ ((1, 0), mkRect 54 104 58 108); ((1, 1), mkRect 54 100 55 101) ]
      ∧ ds !! 2%nat
        = Some [ ((1, 1), mkRect 54 100 58 104); ((1, 0), mkRect 54 104 55 105) ]
      ∧ ¬ layers_agree ds.
Proof.
  eexists. split; [by vm_compute|]. cbn zeta.
  split; [by vm_compute|].
  assert (H0 : seventeen_drawings (original_height two_eyes_image)
                 (Seventeen.mkBounds 1 1 0 1)
                 (Seventeen.mkScan
                    {[ (255, 255, 255) := [(1, 0)]; (166, 202, 240) := [(1, 1)] ]}
                    [(1, 0); (1, 1)]) !! 0%nat
               = Some [ ((1, 0), mkRect 54 104 58 108); ((1, 1), mkRect 54 100 58 104) ])
    by (by vm_compute).
  assert (H1 : seventeen_drawings (original_height two_eyes_image)
                 (Seventeen.mkBounds 1 1 0 1)
                 (Seventeen.mkScan
                    {[ (255, 255, 255) := [(1, 0)]; (166, 202, 240) := [(1, 1)] ]}
                    [(1, 0); (1, 1)]) !! 1%nat
               = Some [ ((1, 0), mkRect 54 104 58 108); ((1, 1), mkRect 54 100 55 101) ])
    by (by vm_compute).
  split; [by vm_compute|]. split; [by vm_compute|]. split; [by vm_compute|].
  intros Hagree.
  apply list_elem_of_lookup_2 in H0, H1.
  assert (E : mkRect 54 100 58 104 = mkRect 54 100 55 101); [|discriminate E].
  eapply (Hagree _ _ (1, 1)); [exact H0 | exact H1 | |].
  - apply elem_of_cons; right. apply elem_of_cons; by left.
  - apply elem_of_cons; right. apply elem_of_cons; by left.
Qed.

(** C1: the three-colour script builds its three layers with one set of
    parameters (scale 4, x offset 50, y offset 100, image height).  The
    compensated script keeps scale, y offset and image height the same in
    every layer but adds the layer's compensation to the x offset: 50 for
    purple and white, 62 for light blue.  The seventeen-colour script
    gives a pixel the same left and bottom in every layer and draws it 4x4
    where it belongs to the layer's own pixel list and 1x1 where the layer
    adds it as a boundary spacer. *)
Theorem layer_coordinates_by_script (img : Image) (height : Z)
    (b : Seventeen.Bounds) (st : Seventeen.Scan) (name : Compensated.layer_name) :
  (∃ out, ThreeColor.create_three_color_blinka img = inr out
     ∧ let draw := λ p, rectangle_contour
                          (pixel_rectangle 4 50 100 (original_height img) p) in
       ThreeColor.blinka_purple out
         = draw <$> ThreeColor.purple_pixels (ThreeColor.groups out)
       ∧ ThreeColor.blinka_white out
         = draw <$> ThreeColor.white_pixels (ThreeColor.groups out)
       ∧ ThreeColor.blinka_lightblue out
         = draw <$> ThreeColor.light_blue_pixels (ThreeColor.groups out))
  ∧ (Compensated.layer_glyph img name
       = (λ p, rectangle_contour
                 (pixel_rectangle 4 (50 + Compensated.compensation_offsets name) 100
                    (original_height img) p))
         <$> Compensated.layer_pixels (Compensated.separate_pixels img) name
     ∧ Compensated.compensation_offsets Compensated.purple = 0
     ∧ Compensated.compensation_offsets Compensated.white = 0
     ∧ Compensated.compensation_offsets Compensated.lightblue = 12)
  ∧ (seventeen_drawings height b st
       = (λ i : list Pixel * bool,
            ((λ p, (p, pixel_rectangle 4 50 100 height p)) <$> i.1)
            ++ ((λ p, (p, spacer_rectangle height p))
                  <$> Seventeen.spacers_to_add b i.1 i.2))
         <$> Seventeen.layer_inputs st
     ∧ (λ i : list Pixel * bool,
          Seventeen.create_layer_with_smart_spacers height b i.1 i.2)
         <$> Seventeen.layer_inputs st
       = (λ l : list (Pixel * Rectangle),
            (λ d : Pixel * Rectangle, rectangle_contour d.2) <$> l)
         <$> seventeen_drawings height b st
     ∧ ∀ p, rect_left (spacer_rectangle height p)
              = rect_left (pixel_rectangle 4 50 100 height p)
            ∧ rect_bottom (spacer_rectangle height p)
              = rect_bottom (pixel_rectangle 4 50 100 height p)).
Proof.
  split; [|split].
  - destruct (three_color_runs img) as (out & E & Hg & Hp & Hw & Hl).
    exists out. split; [done|]. cbn zeta.
    by rewrite Hp, Hw, Hl, Hg, !three_color_layer_contours.
  - split; [|done]. unfold Compensated.layer_glyph.
    apply compensated_layer_contours.
  - split; [|split].
    + unfold seventeen_drawings. apply list_fmap_ext. intros i [ps ns] _.
      apply seventeen_layer_drawing.
    + unfold seventeen_drawings. rewrite <- list_fmap_compose.
      apply list_fmap_ext. intros i [ps ns] _. simpl.
      apply seventeen_layer_glyph_drawing.
    + done.
Qed.

(** ** Partition of the visible pixels *)

(** In the unmatched image the visible pixel (1, 0) ends up in no colour
    group. *)
Lemma unmatched_pixel_in_no_group :
  Seventeen.separate_pixels unmatched_image = inr (Seventeen.mkScan ∅ [(1, 0)])
  ∧ ¬ covers_visible unmatched_image ∅.
Proof.
  split; [by vm_compute|]. intros Hcover.
  destruct (Hcover (1, 0)) as [_ Hback].
  destruct Hback as (c & l & Hl & _); [|by rewrite lookup_empty in Hl].
  split; [|by vm_compute]. apply elem_of_scan. by vm_compute.
Qed.

(** ** Colours outside the target list *)

(** In the unmatched image the pixel (1, 0) has the colour (1, 2, 3),
    which is neither the background nor one of the seventeen targets, and
    neither the classification loop nor the whole run raises. *)
Lemma unmatched_color_is_not_an_error :
  (1, 0) ∈ scan unmatched_image
  ∧ color_at unmatched_image (1, 0) = (1, 2, 3)
  ∧ color_at unmatched_image (1, 0) ≠ bg_color unmatched_image
  ∧ (color_at unmatched_image (1, 0) ∉ Seventeen.seventeen_colors)
  ∧ ¬ raises (Seventeen.separate_pixels unmatched_image)
  ∧ ¬ raises (Seventeen.create_final_seventeen_color_blinka unmatched_image).
Proof.
  split; [by apply elem_of_scan; vm_compute|]. split; [done|].
  split; [by vm_compute|]. split.
  - vm_compute. intros H.
    repeat (apply elem_of_cons in H as [H|H]; [discriminate H|]).
    by apply elem_of_nil in H.
  - split; intros [e He]; vm_compute in He; discriminate He.
Qed.

(** C4: a visible pixel whose colour is none of the seventeen targets
    raises nothing: the run completes, the pixel is recorded in
    [all_visible_pixels] and drawn by the base layer, and it is put in no
    colour group. *)
Theorem unmatched_pixel_is_kept_ungrouped (img : Image) (p : Pixel) :
  p ∈ scan img →
  color_at img p ≠ bg_color img →
  color_at img p ∉ Seventeen.seventeen_colors →
  ∃ out base,
    Seventeen.create_final_seventeen_color_blinka img = inr out
    ∧ p ∈ Seventeen.all_visible_pixels (Seventeen.scanned out)
    ∧ (∀ c l, Seventeen.color_pixel_groups (Seventeen.scanned out) !! c = Some l
              → p ∉ l)
    ∧ Seventeen.layer_glyphs out !! 0%nat = Some base
    ∧ rectangle_contour (pixel_rectangle 4 50 100 (original_height img) p) ∈ base.
Proof.
  intros Hscan Hbg Hc.
  destruct (seventeen_separate_pixels_spec img) as (st & E & Hst).
  assert (Hvis : p ∈ Seventeen.all_visible_pixels st).
  { destruct Hst as [-> _]. unfold visible. by apply list_elem_of_filter. }
  assert (Hne : Seventeen.all_visible_pixels st ≠ []).
  { intros Hnil. rewrite Hnil in Hvis. by apply elem_of_nil in Hvis. }
  destruct (seventeen_bounds_nonempty _ Hne) as (b & Eb & _).
  unfold Seventeen.create_final_seventeen_color_blinka. rewrite E. simpl.
  rewrite Eb. simpl. eexists _, _. split; [reflexivity|]. simpl.
  split; [done|]. split; [|split; [reflexivity|]].
  - intros c l Hl Hp.
    apply (seventeen_group_lookup _ _ _ _ _ Hst) in Hl as [Hin ->].
    apply elem_of_group_of in Hp as (_ & _ & <-). done.
  - rewrite seventeen_layer_contours. apply elem_of_app. left.
    by apply (list_elem_of_fmap_2
                (λ p, rectangle_contour (pixel_rectangle 4 50 100 (original_height img) p))).
Qed.

Lemma unmatched_pixel_is_kept_ungrouped_witness :
  ∃ out base,
    Seventeen.create_final_seventeen_color_blinka unmatched_image = inr out
    ∧ (1, 0) ∈ Seventeen.all_visible_pixels (Seventeen.scanned out)
    ∧ (∀ c l, Seventeen.color_pixel_groups (Seventeen.scanned out) !! c = Some l
              → (1, 0) ∉ l)
    ∧ Seventeen.layer_glyphs out !! 0%nat = Some base
    ∧ rectangle_contour
        (pixel_rectangle 4 50 100 (original_height unmatched_image) (1, 0)) ∈ base.
Proof.
  apply (unmatched_pixel_is_kept_ungrouped unmatched_image (1, 0)).
  - apply elem_of_scan. by vm_compute.
  - by vm_compute.
  - vm_compute. intros H.
    repeat (apply elem_of_cons in H as [H|H]; [discriminate H|]).
    by apply elem_of_nil in H.
Defined.

(** ** create_fixed_six_color_blinka.py: the fallback *)

Lemma max_from_spec (key : RGB → result nat) (size : RGB → nat)
    (items pre : list RGB) (best : RGB) :
  (∀ c, c ∈ items → key c = inr (size c)) →
  first_largest size pre best →
  ∃ c, FixedSix.max_from key best (size best) items = inr c
     ∧ first_largest size (pre ++ items) c.
Proof.
  revert pre best. induction items as [|c items IH]; intros pre best Hkey Hbest.
  - exists best. by rewrite app_nil_r.
  - cbn [FixedSix.max_from]. rewrite (Hkey c) by (apply elem_of_cons; auto).
    simpl. replace (pre ++ c :: items) with ((pre ++ [c]) ++ items)
      by (by rewrite <- app_assoc).
    assert (Hkey' : ∀ c', c' ∈ items → key c' = inr (size c'))
      by (intros c' Hc'; apply Hkey, elem_of_cons; auto).
    destruct Hbest as (i & Hi & Hall & Hbefore).
    pose proof (lookup_lt_Some _ _ _ Hi) as Hlt.
    destruct (decide (size best < size c)%nat) as [Hgt|Hle].
    + apply IH; [done|]. exists (length pre). split; [|split].
      * by rewrite lookup_app_r, Nat.sub_diag by lia.
      * intros j c' Hj. destruct (decide (j < length pre)%nat) as [Hjl|Hjl].
        -- rewrite lookup_app_l in Hj by done. apply Hall in Hj. lia.
        -- rewrite lookup_app_r in Hj by lia.
           destruct (j - length pre)%nat; [|done].
           injection Hj as <-. lia.
      * intros j c' Hjl Hj. rewrite lookup_app_l in Hj by done.
        apply Hall in Hj. lia.
    + apply IH; [done|]. exists i. split; [|split].
      * by rewrite lookup_app_l.
      * intros j c' Hj. destruct (decide (j < length pre)%nat) as [Hjl|Hjl].
        -- rewrite lookup_app_l in Hj by done. by apply Hall in Hj.
        -- rewrite lookup_app_r in Hj by lia.
           destruct (j - length pre)%nat; [|done].
           injection Hj as <-. lia.
      * intros j c' Hjl Hj. rewrite lookup_app_l in Hj by lia.
        by apply (Hbefore j).
Qed.

Lemma py_max_key_spec (key : RGB → result nat) (size : RGB → nat) (items : list RGB) :
  items ≠ [] →
  (∀ c, c ∈ items → key c = inr (size c)) →
  ∃ c, FixedSix.py_max_key key items = inr c ∧ first_largest size items c.
Proof.
  destruct items as [|c items]; [done|]. intros _ Hkey.
  unfold FixedSix.py_max_key. rewrite (Hkey c) by (apply elem_of_cons; auto).
  simpl. apply (max_from_spec key size items [c] c).
  - intros c' Hc'. apply Hkey, elem_of_cons; auto.
  - exists 0%nat. split; [done|]. split.
    + intros [|j] c' Hj; [|done]. by injection Hj as <-.
    + intros j c' Hj. lia.
Qed.

Lemma largest_color_spec (top : list RGB) (d : gmap RGB (list Pixel)) :
  top ≠ [] → has_all_keys top d →
  ∃ c l, FixedSix.largest_color top d = inr c
       ∧ d !! c = Some l
       ∧ first_largest (group_size d) top c.
Proof.
  intros Hne Hkeys.
  destruct (py_max_key_spec
              (λ c, do l <- dict_get d c; ok (length l)) (group_size d) top Hne)
    as (c & Ec & Hc).
  { intros c Hc. unfold dict_get, group_size.
    destruct (Hkeys c Hc) as [l ->]. done. }
  destruct Hc as (i & Hi & Hrest).
  destruct (Hkeys c) as [l Hl]; [by eapply list_elem_of_lookup_2|].
  exists c, l. split; [exact Ec|]. split; [done|]. by exists i.
Qed.

Lemma initial_scan_keys (top : list RGB) :
  has_all_keys top (FixedSix.color_pixels (FixedSix.initial_scan top)).
Proof.
  unfold FixedSix.initial_scan; simpl.
  assert (H : ∀ (items : list RGB) (d : gmap RGB (list Pixel)) c,
             c ∈ items ∨ is_Some (d !! c) →
             is_Some (foldl (λ d color, <[color := []]> d) d items !! c)).
  { induction items as [|c' items IH]; intros d c Hc; simpl.
    - destruct Hc as [Hc|Hc]; [by apply elem_of_nil in Hc | done].
    - apply IH. destruct (decide (c = c')) as [->|Hne].
      + right. rewrite lookup_insert_eq. by eexists.
      + destruct Hc as [Hc|Hc].
        * apply elem_of_cons in Hc as [?|?]; [done | by left].
        * right. by rewrite lookup_insert_ne. }
  intros c Hc. apply H. by left.
Qed.

Lemma has_all_keys_insert (top : list RGB) (d : gmap RGB (list Pixel))
    (c : RGB) (l : list Pixel) :
  has_all_keys top d → has_all_keys top (<[c := l]> d).
Proof.
  intros Hkeys c' Hc'. destruct (decide (c = c')) as [->|Hne].
  - rewrite lookup_insert_eq. by eexists.
  - rewrite lookup_insert_ne by done. by apply Hkeys.
Qed.

Lemma fixed_six_step (top : list RGB) (img : Image) (st : FixedSix.Scan) (p : Pixel) :
  top ≠ [] → has_all_keys top (FixedSix.color_pixels st) →
  ∃ st', FixedSix.classify_pixel top img st p = inr st'
       ∧ has_all_keys top (FixedSix.color_pixels st').
Proof.
  intros Hne Hkeys. destruct p as [x y]. unfold FixedSix.classify_pixel.
  destruct (decide (getpixel img x y = bg_color img)); [by exists st|].
  destruct (decide (getpixel img x y ∈ top)) as [Hin|Hnin].
  - unfold dict_get. destruct (Hkeys _ Hin) as [l ->]. simpl.
    eexists. split; [reflexivity|]. by apply has_all_keys_insert.
  - destruct (largest_color_spec top _ Hne Hkeys) as (c & l & -> & Hl & _).
    simpl. unfold dict_get. rewrite Hl. simpl.
    eexists. split; [reflexivity|]. by apply has_all_keys_insert.
Qed.

Lemma fixed_six_loop (top : list RGB) (img : Image) (ps : list Pixel) (st : FixedSix.Scan) :
  top ≠ [] → has_all_keys top (FixedSix.color_pixels st) →
  ∃ st', FixedSix.classify_pixels top img st ps = inr st'
       ∧ has_all_keys top (FixedSix.color_pixels st').
Proof.
  intros Hne. revert st. induction ps as [|p ps IH]; intros st Hkeys.
  - by exists st.
  - unfold FixedSix.classify_pixels. simpl.
    destruct (fixed_six_step top img st p Hne Hkeys) as (st1 & -> & Hkeys1).
    simpl. by apply IH.
Qed.

(** Scenario D run on a concrete row: when the foreign pixel (2, 0) is
    met the first target holds one pixel and the others none, so the pixel
    joins the first target, although the second target ends up largest. *)
Example scenario_D_run :
  FixedSix.separate_pixels three_targets scenario_D_image
  = inr (FixedSix.mkScan
           {[ (10, 0, 0) := [(1, 0); (2, 0)];
              (20, 0, 0) := [(3, 0); (4, 0); (5, 0)];
              (30, 0, 0) := [] ]}
           [(2, 0, (7, 7, 7))]).
Proof. by vm_compute. Qed.

(** With all target lists empty the tie goes to the first target. *)
Example scenario_D_tie :
  FixedSix.separate_pixels three_targets
    (image_of_rows [ [ (0, 0, 0); (7, 7, 7) ] ])
  = inr (FixedSix.mkScan
           {[ (10, 0, 0) := [(1, 0)]; (20, 0, 0) := []; (30, 0, 0) := [] ]}
           [(1, 0, (7, 7, 7))]).
Proof. by vm_compute. Qed.

(** ** create_fixed_six_color_blinka.py: the groups split the visible pixels *)

Lemma visible_snoc_background (img : Image) (ps : list Pixel) (p : Pixel) :
  color_at img p = bg_color img → visible img (ps ++ [p]) = visible img ps.
Proof.
  intros Hbg. unfold visible.
  rewrite filter_app, filter_cons, filter_nil, decide_False by tauto.
  apply app_nil_r.
Qed.

Lemma visible_snoc_visible (img : Image) (ps : list Pixel) (p : Pixel) :
  color_at img p ≠ bg_color img → visible img (ps ++ [p]) = visible img ps ++ [p].
Proof.
  intros Hbg. unfold visible.
  by rewrite filter_app, filter_cons, filter_nil, decide_True.
Qed.

Lemma splits_visible_skip (img : Image) (ps : list Pixel) (p : Pixel)
    (d : gmap RGB (list Pixel)) :
  color_at img p = bg_color img →
  splits_visible img ps d → splits_visible img (ps ++ [p]) d.
Proof.
  intros Hbg (Hnd & Hdis & Hcov). split; [done|]. split; [done|].
  intros q. by rewrite visible_snoc_background.
Qed.

Lemma splits_visible_append (img : Image) (ps : list Pixel) (p : Pixel)
    (d : gmap RGB (list Pixel)) (c : RGB) (l : list Pixel) :
  NoDup (ps ++ [p]) →
  color_at img p ≠ bg_color img →
  d !! c = Some l →
  splits_visible img ps d →
  splits_visible img (ps ++ [p]) (<[c := l ++ [p]]> d).
Proof.
  intros Hnodup Hbg Hl (Hnd & Hdis & Hcov).
  assert (Hfresh : ∀ c' l', d !! c' = Some l' → p ∉ l').
  { intros c' l' Hl' Hp.
    assert (Hvis : p ∈ visible img ps) by (apply Hcov; eauto).
    apply list_elem_of_filter in Hvis as [_ Hin].
    apply NoDup_app in Hnodup as (_ & Hsep & _).
    apply (Hsep p Hin). by apply list_elem_of_singleton. }
  split; [|split].
  - intros c' l'. destruct (decide (c = c')) as [<-|Hne].
    + rewrite lookup_insert_eq. intros [= <-].
      apply NoDup_app. split; [by eapply Hnd|]. split; [|apply NoDup_singleton].
      intros q Hq Hq'. apply list_elem_of_singleton in Hq' as ->.
      by apply (Hfresh c l).
    + rewrite lookup_insert_ne by done. apply Hnd.
  - intros c1 c2 l1 l2 q Hne H1 H2 Hq1 Hq2.
    destruct (decide (c = c1)) as [<-|Hc1].
    + rewrite lookup_insert_eq in H1. injection H1 as <-.
      rewrite lookup_insert_ne in H2 by done.
      apply elem_of_app in Hq1 as [Hq1|Hq1].
      * by apply (Hdis c c2 l l2 q).
      * apply list_elem_of_singleton in Hq1 as ->. by apply (Hfresh c2 l2).
    + rewrite lookup_insert_ne in H1 by done.
      destruct (decide (c = c2)) as [<-|Hc2].
      * rewrite lookup_insert_eq in H2. injection H2 as <-.
        apply elem_of_app in Hq2 as [Hq2|Hq2].
        -- by apply (Hdis c1 c l1 l q).
        -- apply list_elem_of_singleton in Hq2 as ->. by apply (Hfresh c1 l1).
      * rewrite lookup_insert_ne in H2 by done. by apply (Hdis c1 c2 l1 l2 q).
  - intros q. rewrite visible_snoc_visible, elem_of_app, list_elem_of_singleton by done.
    rewrite <- Hcov. split.
    + intros (c' & l' & Hl' & Hq). destruct (decide (c = c')) as [<-|Hne].
      * rewrite lookup_insert_eq in Hl'. injection Hl' as <-.
        apply elem_of_app in Hq as [Hq|Hq]; [left; eauto|].
        right. by apply list_elem_of_singleton in Hq.
      * rewrite lookup_insert_ne in Hl' by done. left; eauto.
    + intros [(c' & l' & Hl' & Hq)| ->].
      * destruct (decide (c = c')) as [<-|Hne].
        -- exists c, (l ++ [p]). rewrite lookup_insert_eq. split; [done|].
           apply elem_of_app. left. congruence.
        -- exists c', l'. by rewrite lookup_insert_ne.
      * exists c, (l ++ [p]). rewrite lookup_insert_eq. split; [done|].
        apply elem_of_app. right. by apply list_elem_of_singleton.
Qed.

Lemma initial_scan_empty_lists (top : list RGB) (c : RGB) (l : list Pixel) :
  FixedSix.color_pixels (FixedSix.initial_scan top) !! c = Some l → l = [].
Proof.
  unfold FixedSix.initial_scan; simpl.
  assert (H : ∀ (items : list RGB) (d : gmap RGB (list Pixel)),
             (∀ c l, d !! c = Some l → l = []) →
             ∀ c l, foldl (λ d color, <[color := []]> d) d items !! c = Some l
                    → l = []).
  { induction items as [|c' items IH]; intros d Hd; simpl; [done|].
    apply IH. intros c0 l0. destruct (decide (c' = c0)) as [<-|Hne].
    - rewrite lookup_insert_eq. by intros [= <-].
    - rewrite lookup_insert_ne by done. apply Hd. }
  apply H. intros c0 l0. by rewrite lookup_empty.
Qed.

Lemma initial_scan_splits (img : Image) (top : list RGB) :
  splits_visible img [] (FixedSix.color_pixels (FixedSix.initial_scan top)).
Proof.
  split; [|split].
  - intros c l Hl. apply initial_scan_empty_lists in Hl as ->. apply NoDup_nil_2.
  - intros c1 c2 l1 l2 q _ H1 _ Hq.
    apply initial_scan_empty_lists in H1 as ->. by apply elem_of_nil in Hq.
  - intros q. split.
    + intros (c & l & Hl & Hq).
      apply initial_scan_empty_lists in Hl as ->. by apply elem_of_nil in Hq.
    + by intros ?%elem_of_nil.
Qed.

Lemma fixed_six_step_shape (top : list RGB) (img : Image) (st : FixedSix.Scan)
    (p : Pixel) :
  top ≠ [] → has_all_keys top (FixedSix.color_pixels st) →
  (color_at img p = bg_color img
   ∧ FixedSix.classify_pixel top img st p = inr st)
  ∨ (color_at img p ≠ bg_color img
     ∧ ∃ c l others,
         FixedSix.color_pixels st !! c = Some l
         ∧ FixedSix.classify_pixel top img st p
           = inr (FixedSix.mkScan (<[c := l ++ [p]]> (FixedSix.color_pixels st))
                    others)).
Proof.
  intros Hne Hkeys. destruct p as [x y].
  unfold FixedSix.classify_pixel, color_at; simpl.
  destruct (decide (getpixel img x y = bg_color img)) as [Hbg|Hbg]; [by left|].
  right. split; [done|].
  destruct (decide (getpixel img x y ∈ top)) as [Hin|Hnin].
  - unfold dict_get. destruct (Hkeys _ Hin) as [l Hl]. rewrite Hl. simpl.
    by eexists _, _, _.
  - destruct (largest_color_spec top _ Hne Hkeys) as (c & l & -> & Hl & _).
    simpl. unfold dict_get. rewrite Hl. simpl. by eexists _, _, _.
Qed.

Lemma fixed_six_loop_splits (top : list RGB) (img : Image) (ps pre : list Pixel)
    (st : FixedSix.Scan) :
  top ≠ [] →
  NoDup (pre ++ ps) →
  has_all_keys top (FixedSix.color_pixels st) →
  splits_visible img pre (FixedSix.color_pixels st) →
  ∃ st', FixedSix.classify_pixels top img st ps = inr st'
       ∧ splits_visible img (pre ++ ps) (FixedSix.color_pixels st').
Proof.
  intros Hne. revert pre st.
  induction ps as [|p ps IH]; intros pre st Hnodup Hkeys Hsplit.
  - exists st. by rewrite app_nil_r.
  - replace (pre ++ p :: ps) with ((pre ++ [p]) ++ ps) in *
      by (by rewrite <- app_assoc).
    assert (Hnodup1 : NoDup (pre ++ [p])) by (by apply NoDup_app in Hnodup as [? _]).
    unfold FixedSix.classify_pixels. simpl.
    destruct (fixed_six_step_shape top img st p Hne Hkeys)
      as [[Hbg ->]|(Hbg & c & l & others & Hl & ->)]; simpl.
    + apply IH; [done | done |]. by apply splits_visible_skip.
    + apply IH; [done | by apply has_all_keys_insert |].
      by apply splits_visible_append.
Qed.

Lemma fixed_six_groups_partition (top : list RGB) (img : Image) :
  top ≠ [] →
  ∃ st, FixedSix.separate_pixels top img = inr st
      ∧ splits_visible img (scan img) (FixedSix.color_pixels st).
Proof.
  intros Hne.
  apply (fixed_six_loop_splits top img (scan img) []); [done | | |].
  - apply NoDup_scan.
  - apply initial_scan_keys.
  - apply initial_scan_splits.
Qed.

(** C3: the three lists of the three-colour script hold every visible
    pixel of the image exactly once, and so do the groups of the
    fixed-six script for a non-empty target list, where a pixel of a
    foreign colour joins the largest group.  The groups of the
    seventeen-colour script are pairwise disjoint and free of repetitions,
    and together they hold exactly the visible pixels whose colour is one
    of the seventeen targets; a visible pixel of any other colour is kept
    in [all_visible_pixels] only. *)
Theorem classification_partitions (img : Image) (top_6_colors : list RGB) :
  top_6_colors ≠ [] →
  (let g := ThreeColor.separate_pixels img in
   let all_visible :=
     ThreeColor.white_pixels g ++ ThreeColor.light_blue_pixels g
     ++ ThreeColor.purple_pixels g in
   NoDup all_visible
   ∧ ∀ p, p ∈ all_visible ↔ p ∈ scan img ∧ color_at img p ≠ bg_color img)
  ∧ (∃ st, FixedSix.separate_pixels top_6_colors img = inr st
      ∧ pairwise_disjoint (FixedSix.color_pixels st)
      ∧ (∀ c l, FixedSix.color_pixels st !! c = Some l → NoDup l)
      ∧ covers_visible img (FixedSix.color_pixels st))
  ∧ ∃ st, Seventeen.separate_pixels img = inr st
      ∧ pairwise_disjoint (Seventeen.color_pixel_groups st)
      ∧ (∀ c l, Seventeen.color_pixel_groups st !! c = Some l → NoDup l)
      ∧ (∀ p, (∃ c l, Seventeen.color_pixel_groups st !! c = Some l ∧ p ∈ l)
              ↔ p ∈ scan img ∧ color_at img p ≠ bg_color img
                ∧ color_at img p ∈ Seventeen.seventeen_colors)
      ∧ (∀ p, p ∈ Seventeen.all_visible_pixels st
              ↔ p ∈ scan img ∧ color_at img p ≠ bg_color img).
Proof.
  intros Htop.
  split; [apply three_color_groups_partition|]. split.
  { destruct (fixed_six_groups_partition top_6_colors img Htop)
      as (st & E & Hnd & Hdis & Hcov).
    exists st. repeat (split; [done|]).
    intros p. rewrite Hcov. unfold visible. rewrite list_elem_of_filter. tauto. }
  destruct (seventeen_separate_pixels_spec img) as (st & E & Hst).
  exists st. split; [done|]. split; [|split; [|split]].
  - intros c1 c2 l1 l2 p Hne H1 H2 Hp1 Hp2.
    apply (seventeen_group_lookup _ _ _ _ _ Hst) in H1 as [_ ->].
    apply (seventeen_group_lookup _ _ _ _ _ Hst) in H2 as [_ ->].
    apply elem_of_group_of in Hp1 as (_ & _ & E1).
    apply elem_of_group_of in Hp2 as (_ & _ & E2). congruence.
  - intros c l Hl.
    apply (seventeen_group_lookup _ _ _ _ _ Hst) in Hl as [_ ->].
    apply NoDup_filter, NoDup_scan.
  - intros p. split.
    + intros (c & l & Hl & Hp).
      apply (seventeen_group_lookup _ _ _ _ _ Hst) in Hl as [Hc ->].
      apply elem_of_group_of in Hp as (? & ? & <-). done.
    + intros (Hscan & Hbg & Hc).
      assert (Hp : p ∈ group_of img (color_at img p) (scan img))
        by (by apply elem_of_group_of).
      exists (color_at img p), (group_of img (color_at img p) (scan img)).
      split; [|done]. destruct Hst as [_ Hgroups]. rewrite Hgroups.
      rewrite decide_True; [done|]. split; [done|].
      intros Hnil. rewrite Hnil in Hp. by apply elem_of_nil in Hp.
  - intros p. destruct Hst as [-> _]. unfold visible.
    rewrite list_elem_of_filter. tauto.
Qed.

Lemma classification_partitions_witness :
  (let g := ThreeColor.separate_pixels two_eyes_image in
   let all_visible :=
     ThreeColor.white_pixels g ++ ThreeColor.light_blue_pixels g
     ++ ThreeColor.purple_pixels g in
   NoDup all_visible
   ∧ ∀ p, p ∈ all_visible
          ↔ p ∈ scan two_eyes_image
            ∧ color_at two_eyes_image p ≠ bg_color two_eyes_image)
  ∧ (∃ st, FixedSix.separate_pixels three_targets two_eyes_image = inr st
      ∧ pairwise_disjoint (FixedSix.color_pixels st)
      ∧ (∀ c l, FixedSix.color_pixels st !! c = Some l → NoDup l)
      ∧ covers_visible two_eyes_image (FixedSix.color_pixels st))
  ∧ ∃ st, Seventeen.separate_pixels two_eyes_image = inr st
      ∧ pairwise_disjoint (Seventeen.color_pixel_groups st)
      ∧ (∀ c l, Seventeen.color_pixel_groups st !! c = Some l → NoDup l)
      ∧ (∀ p, (∃ c l, Seventeen.color_pixel_groups st !! c = Some l ∧ p ∈ l)
              ↔ p ∈ scan two_eyes_image
                ∧ color_at two_eyes_image p ≠ bg_color two_eyes_image
                ∧ color_at two_eyes_image p ∈ Seventeen.seventeen_colors)
      ∧ (∀ p, p ∈ Seventeen.all_visible_pixels st
              ↔ p ∈ scan two_eyes_image
                ∧ color_at two_eyes_image p ≠ bg_color two_eyes_image).
Proof.
  apply (classification_partitions two_eyes_image three_targets). discriminate.
Defined.

(** ** Further runs *)

(** The light-blue layer of the compensated script is shifted by 12 font
    units against the rectangle the three-colour script draws for the
    same pixel. *)
Example compensated_light_blue_is_shifted :
  Compensated.layer_glyph two_eyes_image Compensated.lightblue
    = [rectangle_contour (mkRect 66 100 70 104)]
  ∧ Compensated.layer_glyph two_eyes_image Compensated.white
    = [rectangle_contour (mkRect 54 104 58 108)]
  ∧ ThreeColor.create_color_layer_glyph 4 2 [(1, 1)]
    = [rectangle_contour (mkRect 54 100 58 104)].
Proof. by vm_compute. Qed.

(** The seventeen-colour script takes [min()] of the visible pixels
    without testing for emptiness, so an all-background image ends its
    run with [ValueError]. *)
Example seventeen_all_background_raises :
  Seventeen.create_final_seventeen_color_blinka blank_2x2 = inl ValueError.
Proof. by vm_compute. Qed.

(** ** create_three_color_blinka.py: what the run guarantees *)

(** X1: for a non-empty visible list and a positive scale factor the
    outline rectangle is the tight bounding box of the pixel rectangles:
    it encloses the rectangle of every listed pixel, and each of its four
    sides is a side of some listed pixel's rectangle. *)
Theorem outline_is_tight_bounding_box (sf w h : Z) (ps : list Pixel) :
  0 < sf →
  ps ≠ [] →
  ∃ r, ThreeColor.base_outline_rectangle sf w h ps = inr r
    ∧ (∀ p, p ∈ ps → encloses r (pixel_rectangle sf 50 100 h p))
    ∧ (∃ p, p ∈ ps ∧ rect_left (pixel_rectangle sf 50 100 h p) = rect_left r)
    ∧ (∃ p, p ∈ ps ∧ rect_right (pixel_rectangle sf 50 100 h p) = rect_right r)
    ∧ (∃ p, p ∈ ps ∧ rect_bottom (pixel_rectangle sf 50 100 h p) = rect_bottom r)
    ∧ (∃ p, p ∈ ps ∧ rect_top (pixel_rectangle sf 50 100 h p) = rect_top r).
Proof.
  intros Hsf Hne.
  destruct (three_color_outline_nonempty sf w h ps Hne)
    as (a & b & c & d & [Ha1 Ha2] & [Hb1 Hb2] & [Hc1 Hc2] & [Hd1 Hd2] & E).
  eexists. split; [exact E|]. simpl.
  apply list_elem_of_fmap in Ha1 as (pa & -> & Hpa).
  apply list_elem_of_fmap in Hb1 as (pb & -> & Hpb).
  apply list_elem_of_fmap in Hc1 as (pc & -> & Hpc).
  apply list_elem_of_fmap in Hd1 as (pd & -> & Hpd).
  split.
  - intros [x y] Hp. unfold encloses; simpl.
    assert (H1 : pa.1 ≤ x) by (apply Ha2; by apply (list_elem_of_fmap_2 fst _ (x, y))).
    assert (H2 : x ≤ pb.1) by (apply Hb2; by apply (list_elem_of_fmap_2 fst _ (x, y))).
    assert (H3 : h - 1 - pc.2 ≤ h - 1 - y)
      by (apply Hc2; by apply (list_elem_of_fmap_2 (λ p : Pixel, h - 1 - p.2) _ (x, y))).
    assert (H4 : h - 1 - y ≤ h - 1 - pd.2)
      by (apply Hd2; by apply (list_elem_of_fmap_2 (λ p : Pixel, h - 1 - p.2) _ (x, y))).
    nia.
  - split; [exists pa; split; [done|]; by destruct pa|].
    split; [exists pb; split; [done|]; destruct pb; simpl; lia|].
    split; [exists pc; split; [done|]; by destruct pc|].
    exists pd; split; [done|]; destruct pd; simpl; lia.
Qed.

Lemma outline_is_tight_bounding_box_witness :
  ∃ r, ThreeColor.base_outline_rectangle 4 16 16 [(3, 5); (4, 6)] = inr r
    ∧ (∀ p, p ∈ [(3, 5); (4, 6)] → encloses r (pixel_rectangle 4 50 100 16 p))
    ∧ (∃ p, p ∈ [(3, 5); (4, 6)]
            ∧ rect_left (pixel_rectangle 4 50 100 16 p) = rect_left r)
    ∧ (∃ p, p ∈ [(3, 5); (4, 6)]
            ∧ rect_right (pixel_rectangle 4 50 100 16 p) = rect_right r)
    ∧ (∃ p, p ∈ [(3, 5); (4, 6)]
            ∧ rect_bottom (pixel_rectangle 4 50 100 16 p) = rect_bottom r)
    ∧ (∃ p, p ∈ [(3, 5); (4, 6)]
            ∧ rect_top (pixel_rectangle 4 50 100 16 p) = rect_top r).
Proof.
  apply (outline_is_tight_bounding_box 4 16 16 [(3, 5); (4, 6)]); [lia | done].
Defined.

(** X2: for a non-empty visible list the advance width is the width of
    the outline rectangle plus one scale factor plus 100; the position
    of the outline does not enter, so the outline's right edge stays
    within the advance width exactly when its left edge is at most
    [scale_factor + 100]. *)
Theorem advance_width_ignores_position (sf w h : Z) (ps : list Pixel) :
  ps ≠ [] →
  ∃ r width,
    ThreeColor.base_outline_rectangle sf w h ps = inr r
    ∧ ThreeColor.glyph_width sf w ps = inr width
    ∧ width = rect_right r - rect_left r + sf + 100
    ∧ (rect_right r ≤ width ↔ rect_left r ≤ sf + 100).
Proof.
  intros Hne.
  destruct (three_color_outline_nonempty sf w h ps Hne)
    as (a & b & c & d & Ha & Hb & _ & _ & E).
  eexists _, _. split; [exact E|].
  split; [exact (three_color_width_nonempty sf w ps a b Ha Hb)|].
  simpl. split; lia.
Qed.

Lemma advance_width_ignores_position_witness :
  ∃ r width,
    ThreeColor.base_outline_rectangle 4 16 16 [(14, 0); (15, 3)] = inr r
    ∧ ThreeColor.glyph_width 4 16 [(14, 0); (15, 3)] = inr width
    ∧ width = rect_right r - rect_left r + 4 + 100
    ∧ (rect_right r ≤ width ↔ rect_left r ≤ 4 + 100).
Proof.
  apply (advance_width_ignores_position 4 16 16 [(14, 0); (15, 3)]). done.
Defined.

(** With the leftmost visible column at x = 14 the outline ends at 114
    while the advance width is 112. *)
Example outline_beyond_advance_width :
  ThreeColor.base_outline_rectangle 4 16 16 [(14, 0); (15, 3)]
    = inr (mkRect 106 148 114 164)
  ∧ ThreeColor.glyph_width 4 16 [(14, 0); (15, 3)] = inr 112.
Proof. by vm_compute. Qed.

Lemma three_color_other_colors (img : Image) (ps : list Pixel) :
  ThreeColor.other_color_pixels
    (foldl (ThreeColor.classify_pixel img) ThreeColor.no_groups ps)
  = (λ p : Pixel, (p.1, p.2, color_at img p))
      <$> filter (λ p, is_other img p ∧ color_at img p ≠ ThreeColor.purple_rgb) ps.
Proof.
  induction ps as [|p ps IH] using rev_ind; [done|].
  rewrite foldl_snoc, filter_app, fmap_app, <- IH.
  set (g := foldl _ _ ps). destruct p as [x y].
  unfold ThreeColor.classify_pixel. rewrite filter_cons, filter_nil.
  unfold is_other, color_at; simpl.
  repeat case_decide; simpl; rewrite ?app_nil_r; try done;
    exfalso; intuition congruence.
Qed.

(** X3: the three lists are the visible pixels in scan order, split by
    first match: white takes the white ones, light blue the light-blue
    ones, purple every other visible pixel.  The side list
    [other_color_pixels] holds, with its colour, exactly each pixel of the
    purple list whose colour is not the purple of the palette. *)
Theorem three_color_lists_characterised (img : Image) :
  let g := ThreeColor.separate_pixels img in
  ThreeColor.white_pixels g
    = filter (λ p, color_at img p ≠ bg_color img
                   ∧ color_at img p = ThreeColor.white_rgb) (scan img)
  ∧ ThreeColor.light_blue_pixels g
    = filter (λ p, color_at img p ≠ bg_color img
                   ∧ color_at img p ≠ ThreeColor.white_rgb
                   ∧ color_at img p = ThreeColor.light_blue_rgb) (scan img)
  ∧ ThreeColor.purple_pixels g
    = filter (λ p, color_at img p ≠ bg_color img
                   ∧ color_at img p ≠ ThreeColor.white_rgb
                   ∧ color_at img p ≠ ThreeColor.light_blue_rgb) (scan img)
  ∧ ∀ x y rgb,
      (x, y, rgb) ∈ ThreeColor.other_color_pixels g
      ↔ (x, y) ∈ ThreeColor.purple_pixels g
        ∧ rgb = getpixel img x y ∧ rgb ≠ ThreeColor.purple_rgb.
Proof.
  cbn zeta. unfold ThreeColor.separate_pixels.
  destruct (three_color_classify_filter img (scan img)) as (Ew & El & Ep).
  split; [exact Ew|]. split; [exact El|]. split; [exact Ep|].
  intros x y rgb. rewrite three_color_other_colors, Ep.
  rewrite list_elem_of_fmap. setoid_rewrite list_elem_of_filter. split.
  - intros ([x' y'] & [= -> -> ->] & [Ho Hc] & Hin). done.
  - intros ([Ho Hin] & -> & Hc). exists (x, y). done.
Qed.

(** ** create_compensated_three_color_blinka.py against the three-colour script *)

Lemma compensated_classify_same (img : Image) (ps : list Pixel) :
  let g := foldl (Compensated.classify_pixel img) Compensated.no_groups ps in
  let g3 := foldl (ThreeColor.classify_pixel img) ThreeColor.no_groups ps in
  Compensated.white_pixels g = ThreeColor.white_pixels g3
  ∧ Compensated.light_blue_pixels g = ThreeColor.light_blue_pixels g3
  ∧ Compensated.purple_pixels g = ThreeColor.purple_pixels g3.
Proof.
  induction ps as [|p ps IH] using rev_ind; [done|].
  cbn zeta in *. rewrite !foldl_snoc. destruct IH as (IHw & IHl & IHp).
  set (g := foldl (Compensated.classify_pixel img) _ ps) in *.
  set (g3 := foldl (ThreeColor.classify_pixel img) _ ps) in *.
  destruct p as [x y].
  unfold Compensated.classify_pixel, ThreeColor.classify_pixel.
  change Compensated.white_rgb with ThreeColor.white_rgb.
  change Compensated.light_blue_rgb with ThreeColor.light_blue_rgb.
  repeat case_decide; simpl; by rewrite ?IHw, ?IHl, ?IHp.
Qed.

(** X4: the compensated script differs from the three-colour script only
    in the layer offset and the width margin: on every image both sort
    the pixels into the same three lists; for every visible list both
    draw the same outline rectangle, which takes no compensation; and the
    compensated advance width is the three-colour one plus 12. *)
Theorem compensated_matches_three_color (img : Image) (w h : Z) (ps : list Pixel) :
  (let g := Compensated.separate_pixels img in
   let g3 := ThreeColor.separate_pixels img in
   Compensated.white_pixels g = ThreeColor.white_pixels g3
   ∧ Compensated.light_blue_pixels g = ThreeColor.light_blue_pixels g3
   ∧ Compensated.purple_pixels g = ThreeColor.purple_pixels g3)
  ∧ CompensatedMetrics.base_outline_rectangle w h ps
    = ThreeColor.base_outline_rectangle 4 w h ps
  ∧ CompensatedMetrics.glyph_width w ps
    = (do width <- ThreeColor.glyph_width 4 w ps; ok (width + 12)).
Proof.
  split; [apply compensated_classify_same|]. split.
  - by destruct ps.
  - destruct ps as [|p ps]; [done|].
    unfold CompensatedMetrics.glyph_width, ThreeColor.glyph_width.
    destruct (py_min ((p :: ps).*1)) as [e|mn]; simpl; [done|].
    destruct (py_max ((p :: ps).*1)) as [e|mx]; simpl; done.
Qed.

(** ** create_final_seventeen_color_blinka.py: what the run guarantees *)

Lemma seventeen_run_unfold (img : Image) (st : Seventeen.Scan) (b : Seventeen.Bounds) :
  Seventeen.separate_pixels img = inr st →
  Seventeen.overall_bounds (Seventeen.all_visible_pixels st) = inr b →
  Seventeen.create_final_seventeen_color_blinka img
  = inr (Seventeen.mkOutput st b
           ((λ i : list Pixel * bool,
               Seventeen.create_layer_with_smart_spacers (original_height img) b i.1 i.2)
              <$> Seventeen.layer_inputs st)
           (Seventeen.glyph_width b)).
Proof.
  intros Est Eb. unfold Seventeen.create_final_seventeen_color_blinka.
  rewrite Est. simpl. by rewrite Eb.
Qed.

Lemma seventeen_run_inv (img : Image) (out : Seventeen.Output) :
  Seventeen.create_final_seventeen_color_blinka img = inr out →
  Seventeen.separate_pixels img = inr (Seventeen.scanned out)
  ∧ Seventeen.overall_bounds (Seventeen.all_visible_pixels (Seventeen.scanned out))
    = inr (Seventeen.bounds out)
  ∧ Seventeen.layer_glyphs out
    = (λ i : list Pixel * bool,
         Seventeen.create_layer_with_smart_spacers (original_height img)
           (Seventeen.bounds out) i.1 i.2)
        <$> Seventeen.layer_inputs (Seventeen.scanned out).
Proof.
  unfold Seventeen.create_final_seventeen_color_blinka.
  destruct (Seventeen.separate_pixels img) as [e|st]; simpl; [done|].
  destruct (Seventeen.overall_bounds _) as [e|b] eqn:Eb; simpl; [done|].
  intros [= <-]. split; [done|]. split; [exact Eb | reflexivity].
Qed.

(** X5: the seventeen-colour run needs a visible pixel.  On an image with
    none it ends with [ValueError], raised by [min()] of the empty list;
    on every other image it returns, its visible list is the visible
    pixels in scan order and its bounds are their least and greatest raw
    coordinates. *)
Theorem seventeen_run_needs_visible_pixel (img : Image) :
  (visible img (scan img) = [] →
   Seventeen.create_final_seventeen_color_blinka img = inl ValueError)
  ∧ (visible img (scan img) ≠ [] →
     ∃ out, Seventeen.create_final_seventeen_color_blinka img = inr out
       ∧ Seventeen.all_visible_pixels (Seventeen.scanned out) = visible img (scan img)
       ∧ is_min (Seventeen.min_x (Seventeen.bounds out)) ((visible img (scan img)).*1)
       ∧ is_max (Seventeen.max_x (Seventeen.bounds out)) ((visible img (scan img)).*1)
       ∧ is_min (Seventeen.min_y (Seventeen.bounds out)) ((visible img (scan img)).*2)
       ∧ is_max (Seventeen.max_y (Seventeen.bounds out)) ((visible img (scan img)).*2)).
Proof.
  destruct (seventeen_separate_pixels_spec img) as (st & Est & Hvis & Hgroups).
  split.
  - intros Hnil. unfold Seventeen.create_final_seventeen_color_blinka.
    rewrite Est. simpl. by rewrite Hvis, Hnil.
  - intros Hne. rewrite <- Hvis in Hne |- *.
    destruct (seventeen_bounds_nonempty _ Hne) as (b & Eb & H1 & H2 & H3 & H4).
    eexists. split; [by apply seventeen_run_unfold|]. done.
Qed.

Lemma seventeen_layer_pixels_visible (img : Image) (st : Seventeen.Scan)
    (ps : list Pixel) (ns : bool) (p : Pixel) :
  seventeen_state img (scan img) st →
  (ps, ns) ∈ Seventeen.layer_inputs st →
  p ∈ ps → p ∈ Seventeen.all_visible_pixels st.
Proof.
  intros Hst Hin Hp. unfold Seventeen.layer_inputs in Hin.
  apply elem_of_cons in Hin as [[= -> ->]|Hin]; [done|].
  apply list_elem_of_fmap in Hin as (c & [= -> ->] & _).
  destruct (Seventeen.color_pixel_groups st !! c) as [l|] eqn:El; simpl in Hp;
    [|by apply elem_of_nil in Hp].
  apply (seventeen_group_lookup _ _ _ _ _ Hst) in El as [_ ->].
  apply elem_of_group_of in Hp as (Hscan & Hbg & _).
  destruct Hst as [-> _]. unfold visible. by apply list_elem_of_filter.
Qed.

Lemma elem_of_all_layer_pixels (b : Seventeen.Bounds) (ps : list Pixel) (p : Pixel) :
  ps ≠ [] →
  p ∈ Seventeen.all_layer_pixels b ps true
  ↔ p ∈ ps ∨ p = (Seventeen.min_x b, Seventeen.min_y b)
    ∨ p = (Seventeen.max_x b, Seventeen.max_y b).
Proof.
  intros Hne. unfold Seventeen.all_layer_pixels.
  rewrite spacers_to_add_filter, elem_of_app. simpl.
  rewrite bool_decide_eq_true_2 by done.
  rewrite list_elem_of_filter, !elem_of_cons, elem_of_nil.
  destruct (decide (p ∈ ps)); tauto.
Qed.

(** X6: in a run that returns, every non-empty layer that takes spacers
    spans the overall bounds: the least and greatest x and y over the
    pixels it draws, spacers included, are the overall [min_x], [max_x],
    [min_y] and [max_y]. *)
Theorem spacers_stretch_layer_to_bounds (img : Image) (out : Seventeen.Output)
    (ps : list Pixel) :
  Seventeen.create_final_seventeen_color_blinka img = inr out →
  (ps, true) ∈ Seventeen.layer_inputs (Seventeen.scanned out) →
  ps ≠ [] →
  let b := Seventeen.bounds out in
  let drawn := Seventeen.all_layer_pixels b ps true in
  is_min (Seventeen.min_x b) (drawn.*1) ∧ is_max (Seventeen.max_x b) (drawn.*1)
  ∧ is_min (Seventeen.min_y b) (drawn.*2) ∧ is_max (Seventeen.max_y b) (drawn.*2).
Proof.
  intros Hrun Hin Hne b drawn.
  apply seventeen_run_inv in Hrun as (Est & Eb & _). fold b in Eb.
  destruct (seventeen_separate_pixels_spec img) as (st & Est' & Hst).
  rewrite Est in Est'. injection Est' as <-.
  set (vis := Seventeen.all_visible_pixels (Seventeen.scanned out)) in *.
  assert (Hvne : vis ≠ []).
  { destruct ps as [|p ps']; [done|]. intros Hnil.
    assert (Hp : p ∈ vis).
    { eapply seventeen_layer_pixels_visible; [done | done | apply elem_of_cons; auto]. }
    rewrite Hnil in Hp. by apply elem_of_nil in Hp. }
  destruct (seventeen_bounds_nonempty vis Hvne)
    as (b' & Eb' & [Hx1 Hx2] & [Hx3 Hx4] & [Hy1 Hy2] & [Hy3 Hy4]).
  rewrite Eb in Eb'. injection Eb' as <-.
  assert (Hsub : ∀ p, p ∈ ps → p ∈ vis)
    by (intros p Hp; by eapply seventeen_layer_pixels_visible).
  assert (Hxx : Seventeen.min_x b ≤ Seventeen.max_x b) by (by apply Hx4).
  assert (Hyy : Seventeen.min_y b ≤ Seventeen.max_y b) by (by apply Hy4).
  assert (Hlo : (Seventeen.min_x b, Seventeen.min_y b) ∈ drawn)
    by (apply elem_of_all_layer_pixels; auto).
  assert (Hhi : (Seventeen.max_x b, Seventeen.max_y b) ∈ drawn)
    by (apply elem_of_all_layer_pixels; auto).
  assert (Hbox : ∀ p, p ∈ drawn →
            Seventeen.min_x b ≤ p.1 ≤ Seventeen.max_x b
            ∧ Seventeen.min_y b ≤ p.2 ≤ Seventeen.max_y b).
  { intros p Hp. apply elem_of_all_layer_pixels in Hp; [|done].
    destruct Hp as [Hp|[->| ->]].
    - apply Hsub in Hp.
      pose proof (Hx2 _ (list_elem_of_fmap_2 fst _ _ Hp)).
      pose proof (Hx4 _ (list_elem_of_fmap_2 fst _ _ Hp)).
      pose proof (Hy2 _ (list_elem_of_fmap_2 snd _ _ Hp)).
      pose proof (Hy4 _ (list_elem_of_fmap_2 snd _ _ Hp)). lia.
    - simpl. lia.
    - simpl. lia. }
  repeat split.
  - by apply (list_elem_of_fmap_2 fst _ _ Hlo).
  - intros z Hz. apply list_elem_of_fmap in Hz as (p & -> & Hp). by apply Hbox.
  - by apply (list_elem_of_fmap_2 fst _ _ Hhi).
  - intros z Hz. apply list_elem_of_fmap in Hz as (p & -> & Hp). by apply Hbox.
  - by apply (list_elem_of_fmap_2 snd _ _ Hlo).
  - intros z Hz. apply list_elem_of_fmap in Hz as (p & -> & Hp). by apply Hbox.
  - by apply (list_elem_of_fmap_2 snd _ _ Hhi).
  - intros z Hz. apply list_elem_of_fmap in Hz as (p & -> & Hp). by apply Hbox.
Qed.

Lemma spacers_stretch_layer_to_bounds_witness :
  ∃ out,
    Seventeen.create_final_seventeen_color_blinka two_eyes_image = inr out
    ∧ let b := Seventeen.bounds out in
      let drawn := Seventeen.all_layer_pixels b [(1, 0)] true in
      is_min (Seventeen.min_x b) (drawn.*1) ∧ is_max (Seventeen.max_x b) (drawn.*1)
      ∧ is_min (Seventeen.min_y b) (drawn.*2) ∧ is_max (Seventeen.max_y b) (drawn.*2).
Proof.
  eexists. split; [by vm_compute|].
  apply (spacers_stretch_layer_to_bounds two_eyes_image _ [(1, 0)]).
  - by vm_compute.
  - vm_compute. apply elem_of_cons; right. apply elem_of_cons; by left.
  - done.
Defined.

(** ** create_final_seventeen_color_blinka.py: the fidelity report *)

Lemma total_colored_insert_fresh (m : gmap RGB (list Pixel)) (k : RGB) (v : list Pixel) :
  m !! k = None →
  SeventeenReport.total_colored_pixels (<[k := v]> m)
  = SeventeenReport.total_colored_pixels m + Z.of_nat (length v).
Proof.
  intros Hk. unfold SeventeenReport.total_colored_pixels.
  rewrite map_fold_insert_L; [done | | done].
  intros. lia.
Qed.

Lemma total_colored_append (m : gmap RGB (list Pixel)) (k : RGB) (p : Pixel) :
  SeventeenReport.total_colored_pixels (<[k := default [] (m !! k) ++ [p]]> m)
  = SeventeenReport.total_colored_pixels m + 1.
Proof.
  destruct (m !! k) as [l|] eqn:El; simpl.
  - rewrite <- insert_delete_eq.
    rewrite total_colored_insert_fresh by apply lookup_delete_eq.
    rewrite <- (insert_delete_id m k l El) at 2.
    rewrite total_colored_insert_fresh by apply lookup_delete_eq.
    rewrite length_app. simpl. lia.
  - rewrite total_colored_insert_fresh by done. simpl. lia.
Qed.

Lemma seventeen_total_colored (img : Image) (ps : list Pixel) :
  ∃ st, for_each (Seventeen.classify_pixel img) Seventeen.empty_scan ps = inr st
      ∧ SeventeenReport.total_colored_pixels (Seventeen.color_pixel_groups st)
        = Z.of_nat (length (filter (λ p, color_at img p ∈ Seventeen.seventeen_colors)
                              (visible img ps))).
Proof.
  induction ps as [|p ps IH] using rev_ind.
  - exists Seventeen.empty_scan. split; [done|]. simpl.
    unfold SeventeenReport.total_colored_pixels. by rewrite map_fold_empty.
  - destruct IH as (st & Est & Htot).
    rewrite for_each_app, Est. simpl.
    destruct p as [x y]. unfold Seventeen.classify_pixel.
    change (getpixel img x y) with (color_at img (x, y)).
    set (p := (x, y)). set (rgb := color_at img p).
    destruct (decide (rgb = bg_color img)) as [Hbg|Hbg].
    + exists st. split; [done|]. by rewrite visible_snoc_background.
    + rewrite match_color_spec. simpl. eexists. split; [reflexivity|]. simpl.
      rewrite visible_snoc_visible, filter_app, filter_cons, filter_nil by done.
      fold rgb. destruct (decide (rgb ∈ Seventeen.seventeen_colors)).
      * rewrite total_colored_append, Htot, length_app. simpl. lia.
      * by rewrite Htot, app_nil_r.
Qed.

(** X8: the "remaining pixels" figure of the report is the number of
    visible pixels whose colour is none of the seventeen targets; it is
    never negative, and it is zero exactly when every visible pixel has a
    target colour. *)
Theorem remaining_pixels_counts_foreign_colours (img : Image) :
  ∃ st, Seventeen.separate_pixels img = inr st
    ∧ SeventeenReport.remaining_pixels st
      = Z.of_nat (length (filter (λ p, color_at img p ∉ Seventeen.seventeen_colors)
                            (visible img (scan img))))
    ∧ 0 ≤ SeventeenReport.remaining_pixels st
    ∧ (SeventeenReport.remaining_pixels st = 0
       ↔ ∀ p, p ∈ scan img → color_at img p ≠ bg_color img →
              color_at img p ∈ Seventeen.seventeen_colors).
Proof.
  destruct (seventeen_total_colored img (scan img)) as (st & Est & Htot).
  destruct (seventeen_separate_pixels_spec img) as (st' & Est' & Hvis & _).
  unfold Seventeen.separate_pixels in *. rewrite Est in Est'. injection Est' as <-.
  exists st. split; [done|].
  assert (E : SeventeenReport.remaining_pixels st
      = Z.of_nat (length (filter (λ p, color_at img p ∉ Seventeen.seventeen_colors)
                            (visible img (scan img))))).
  { unfold SeventeenReport.remaining_pixels. rewrite Htot, Hvis.
    pose proof (filter_app_complement
                  (λ p, color_at img p ∈ Seventeen.seventeen_colors)
                  (visible img (scan img))) as Hperm.
    apply Permutation_length in Hperm. rewrite length_app in Hperm. lia. }
  split; [exact E|]. split; [lia|].
  rewrite E.
  set (foreign := filter (λ p, color_at img p ∉ Seventeen.seventeen_colors)
                    (visible img (scan img))).
  assert (Hforeign : ∀ p, p ∈ foreign
            ↔ (color_at img p ∉ Seventeen.seventeen_colors)
              ∧ color_at img p ≠ bg_color img ∧ p ∈ scan img).
  { intros p. unfold foreign, visible. by rewrite !list_elem_of_filter. }
  split.
  - intros Hzero p Hscan Hbg.
    destruct (decide (color_at img p ∈ Seventeen.seventeen_colors)) as [|Hn]; [done|].
    assert (Hin : p ∈ foreign) by (by apply Hforeign).
    destruct foreign; [by apply elem_of_nil in Hin | simpl in Hzero; lia].
  - intros Hall. destruct foreign as [|p l]; [done|]. exfalso.
    destruct (Hforeign p) as [Hp _].
    destruct Hp as (Hn & Hbg & Hscan); [apply elem_of_cons; auto|].
    by apply Hn, Hall.
Qed.

(** ** create_fixed_six_color_blinka.py: counting and choosing the targets *)

Lemma count_of_increment (rgb c : RGB) (counts : list (RGB * Z)) :
  count_of (FixedSixRun.increment rgb counts) c
  = if decide (c = rgb) then count_of counts c + 1 else count_of counts c.
Proof.
  induction counts as [|[c' n] counts IH]; simpl.
  - destruct (decide (rgb = c)), (decide (c = rgb)); congruence.
  - destruct (decide (c' = rgb)) as [->|Hne]; simpl.
    + destruct (decide (rgb = c)), (decide (c = rgb)); congruence.
    + rewrite IH. destruct (decide (c' = c)), (decide (c = rgb)); congruence.
Qed.

Lemma keys_increment (rgb : RGB) (counts : list (RGB * Z)) :
  (FixedSixRun.increment rgb counts).*1
  = if decide (rgb ∈ counts.*1) then counts.*1 else counts.*1 ++ [rgb].
Proof.
  induction counts as [|[c' n] counts IH].
  - rewrite decide_False; [done | apply not_elem_of_nil].
  - cbn [FixedSixRun.increment]. rewrite fmap_cons. cbn [fst].
    destruct (decide (c' = rgb)) as [->|Hne].
    + rewrite fmap_cons. cbn [fst]. clear IH.
      case_decide as H; [done|]. exfalso. apply H, elem_of_cons; auto.
    + rewrite fmap_cons, IH. cbn [fst].
      clear IH. destruct (decide (rgb ∈ counts.*1)) as [Hin|Hnin].
      * case_decide as H; [done|]. exfalso. apply H, elem_of_cons; auto.
      * case_decide as H; [|done].
        apply elem_of_cons in H as [?|?]; congruence.
Qed.

Lemma count_of_elem (counts : list (RGB * Z)) (c : RGB) (n : Z) :
  NoDup (counts.*1) → (c, n) ∈ counts → count_of counts c = n.
Proof.
  induction counts as [|[c' n'] counts IH]; intros Hnd Hin.
  - by apply elem_of_nil in Hin.
  - simpl in *. apply NoDup_cons in Hnd as [Hc' Hnd].
    apply elem_of_cons in Hin as [[= -> ->]|Hin].
    + by rewrite decide_True.
    + rewrite decide_False; [by apply IH|].
      intros ->. apply Hc'. by apply (list_elem_of_fmap_2 fst _ (c, n)).
Qed.

Lemma count_of_key (counts : list (RGB * Z)) (c : RGB) :
  c ∈ counts.*1 → (c, count_of counts c) ∈ counts.
Proof.
  induction counts as [|[c' n'] counts IH]; simpl; intros Hin.
  - by apply elem_of_nil in Hin.
  - destruct (decide (c' = c)) as [->|Hne]; [apply elem_of_cons; auto|].
    apply elem_of_cons in Hin as [?|Hin]; [congruence|].
    apply elem_of_cons. right. by apply IH.
Qed.

Lemma counts_after_spec (img : Image) (ps : list Pixel) :
  NoDup ((counts_after img ps).*1)
  ∧ ∀ c, (c ∈ (counts_after img ps).*1 ↔ group_of img c ps ≠ [])
         ∧ count_of (counts_after img ps) c = Z.of_nat (length (group_of img c ps)).
Proof.
  induction ps as [|p ps IH] using rev_ind.
  - split; [apply NoDup_nil_2|]. intros c. split; [|done].
    split; [by intros ?%elem_of_nil | done].
  - destruct IH as [Hnd Hc]. unfold counts_after in *. rewrite foldl_snoc.
    set (counts := foldl (count_pixel img) [] ps) in *. destruct p as [x y].
    unfold count_pixel at 1 2 3.
    change (getpixel img x y) with (color_at img (x, y)).
    set (p := (x, y)). set (rgb := color_at img p).
    destruct (decide (rgb ≠ bg_color img)) as [Hbg|Hbg].
    + split.
      * rewrite keys_increment. destruct (decide (rgb ∈ counts.*1)); [done|].
        apply NoDup_app. split; [done|]. split; [|apply NoDup_singleton].
        intros c Hin ->%list_elem_of_singleton. done.
      * intros c. destruct (Hc c) as [Hkeys Hcount]. split.
        -- rewrite keys_increment. destruct (decide (c = rgb)) as [->|Hne].
           ++ rewrite (group_of_snoc_same img rgb ps p) by done. split.
              ** intros _. by destruct (group_of img rgb ps).
              ** intros _. destruct (decide (rgb ∈ counts.*1)); [done|].
                 apply elem_of_app. right. by apply list_elem_of_singleton.
           ++ rewrite group_of_snoc_other by (fold rgb; congruence).
              rewrite <- Hkeys. destruct (decide (rgb ∈ counts.*1)); [done|].
              rewrite elem_of_app, list_elem_of_singleton. tauto.
        -- rewrite count_of_increment, Hcount.
           destruct (decide (c = rgb)) as [->|Hne].
           ++ rewrite (group_of_snoc_same img rgb ps p), length_app by done.
              simpl. lia.
           ++ by rewrite group_of_snoc_other by (fold rgb; congruence).
    + assert (Hbg' : color_at img p = bg_color img).
      { destruct (decide (rgb = bg_color img)); [done | contradiction]. }
      split; [done|]. intros c. by rewrite group_of_snoc_background.
Qed.

Lemma counts_after_items (img : Image) (ps : list Pixel) :
  NoDup ((counts_after img ps).*1)
  ∧ ∀ c n, (c, n) ∈ counts_after img ps
           ↔ n = Z.of_nat (length (group_of img c ps)) ∧ 0 < n.
Proof.
  destruct (counts_after_spec img ps) as [Hnd Hc]. split; [done|].
  intros c n. destruct (Hc c) as [Hkeys Hcount]. split.
  - intros Hin. rewrite <- (count_of_elem _ _ _ Hnd Hin), Hcount.
    split; [done|].
    assert (Hk : c ∈ (counts_after img ps).*1)
      by (by apply (list_elem_of_fmap_2 fst _ (c, n))).
    apply Hkeys in Hk. destruct (group_of img c ps); [done | simpl; lia].
  - intros [-> Hpos]. rewrite <- Hcount. apply count_of_key, Hkeys.
    intros Hnil. rewrite Hnil in Hpos. simpl in Hpos. lia.
Qed.

(** X9: the counting loop leaves one entry per visible colour, and the
    entry of a colour holds the number of visible pixels of that colour:
    [(c, n)] is an item exactly when [n] is that number and is positive.
    The background colour has no entry. *)
Theorem color_counts_are_pixel_counts (img : Image) :
  NoDup ((FixedSixRun.color_counts img).*1)
  ∧ (∀ c n, (c, n) ∈ FixedSixRun.color_counts img
            ↔ n = Z.of_nat (length (group_of img c (scan img))) ∧ 0 < n)
  ∧ bg_color img ∉ (FixedSixRun.color_counts img).*1.
Proof.
  change (FixedSixRun.color_counts img) with (counts_after img (scan img)).
  destruct (counts_after_items img (scan img)) as [Hnd Hitems].
  split; [done|]. split; [done|].
  intros Hin. apply list_elem_of_fmap in Hin as ([c n] & Hc & Hin).
  simpl in Hc. subst c. apply Hitems in Hin as [-> Hpos].
  destruct (group_of img (bg_color img) (scan img)) as [|p l] eqn:E;
    [simpl in Hpos; lia|].
  assert (Hp : p ∈ group_of img (bg_color img) (scan img))
    by (rewrite E; apply elem_of_cons; auto).
  apply elem_of_group_of in Hp as (_ & Hne & He). congruence.
Qed.

Lemma insert_descending_perm (item : RGB * Z) (l : list (RGB * Z)) :
  FixedSixRun.insert_descending item l ≡ₚ item :: l.
Proof.
  induction l as [|other l IH]; simpl; [done|].
  destruct (decide (item.2 < other.2)); [|done].
  rewrite IH. apply Permutation_swap.
Qed.

Lemma sorted_descending_perm (l : list (RGB * Z)) :
  FixedSixRun.sorted_descending l ≡ₚ l.
Proof.
  induction l as [|item l IH]; simpl; [done|].
  by rewrite insert_descending_perm, IH.
Qed.

Lemma insert_descending_sorted (item : RGB * Z) (l : list (RGB * Z)) :
  StronglySorted (λ a b : RGB * Z, b.2 ≤ a.2) l →
  StronglySorted (λ a b : RGB * Z, b.2 ≤ a.2) (FixedSixRun.insert_descending item l).
Proof.
  induction l as [|other l IH]; intros Hs; simpl.
  - repeat constructor.
  - apply StronglySorted_cons in Hs as [Hall Hs].
    destruct (decide (item.2 < other.2)) as [Hlt|Hge].
    + apply StronglySorted_cons. split; [|by apply IH].
      apply Forall_forall. intros z Hz.
      rewrite insert_descending_perm in Hz.
      apply elem_of_cons in Hz as [->|Hz]; [lia|].
      by apply (proj1 (Forall_forall _ _) Hall).
    + apply StronglySorted_cons. split; [|by apply StronglySorted_cons].
      apply Forall_cons. split; [lia|].
      apply Forall_forall. intros z Hz.
      apply (proj1 (Forall_forall _ _) Hall) in Hz. lia.
Qed.

Lemma sorted_descending_sorted (l : list (RGB * Z)) :
  StronglySorted (λ a b : RGB * Z, b.2 ≤ a.2) (FixedSixRun.sorted_descending l).
Proof.
  induction l as [|item l IH]; simpl; [constructor|].
  by apply insert_descending_sorted.
Qed.

Lemma sorted_colors_spec (img : Image) :
  NoDup ((FixedSixRun.sorted_colors img).*1)
  ∧ ∀ c n, (c, n) ∈ FixedSixRun.sorted_colors img
           ↔ n = Z.of_nat (length (group_of img c (scan img))) ∧ 0 < n.
Proof.
  destruct (counts_after_items img (scan img)) as (Hnd & Hitems).
  change (counts_after img (scan img)) with (FixedSixRun.color_counts img) in *.
  unfold FixedSixRun.sorted_colors. split.
  - by rewrite sorted_descending_perm.
  - intros c n. by rewrite sorted_descending_perm.
Qed.

Lemma top_6_elem (img : Image) (c : RGB) :
  c ∈ FixedSixRun.top_6_colors img
  ↔ (c, Z.of_nat (length (group_of img c (scan img))))
      ∈ take 6 (FixedSixRun.sorted_colors img).
Proof.
  unfold FixedSixRun.top_6_colors. destruct (sorted_colors_spec img) as [_ Hitems].
  split.
  - intros Hin. apply list_elem_of_fmap in Hin as ([c' n] & -> & Hin). simpl.
    assert (Hs : (c', n) ∈ FixedSixRun.sorted_colors img)
      by (by apply (subseteq_take 6)).
    apply Hitems in Hs as [-> _]. done.
  - intros Hin. by apply (list_elem_of_fmap_2 fst _ _ Hin).
Qed.

Lemma top_6_empty (img : Image) :
  FixedSixRun.top_6_colors img = [] →
  ∀ p, p ∈ scan img → color_at img p = bg_color img.
Proof.
  intros Hnil p Hscan.
  destruct (decide (color_at img p = bg_color img)) as [|Hbg]; [done|]. exfalso.
  destruct (sorted_colors_spec img) as [_ Hitems].
  assert (Hg : p ∈ group_of img (color_at img p) (scan img))
    by (by apply elem_of_group_of).
  assert (Hin : (color_at img p,
                 Z.of_nat (length (group_of img (color_at img p) (scan img))))
                ∈ FixedSixRun.sorted_colors img).
  { apply Hitems. split; [done|].
    destruct (group_of img _ _); [by apply elem_of_nil in Hg | simpl; lia]. }
  unfold FixedSixRun.top_6_colors in Hnil.
  destruct (FixedSixRun.sorted_colors img); [by apply elem_of_nil in Hin | done].
Qed.

Lemma top_6_covers_few_colours (img : Image) :
  (length (FixedSixRun.color_counts img) ≤ 6)%nat →
  ∀ p, p ∈ scan img → color_at img p ≠ bg_color img →
       color_at img p ∈ FixedSixRun.top_6_colors img.
Proof.
  destruct (sorted_colors_spec img) as [Hnd Hitems].
  intros Hlen p Hscan Hbg. apply top_6_elem.
  assert (Hg : p ∈ group_of img (color_at img p) (scan img))
    by (by apply elem_of_group_of).
  rewrite take_ge.
  - apply Hitems. split; [done|].
    destruct (group_of img _ _); [by apply elem_of_nil in Hg | simpl; lia].
  - unfold FixedSixRun.sorted_colors.
    by rewrite (Permutation_length (sorted_descending_perm _)).
Qed.


(** X10: the targets are at most six distinct visible colours, none of
    them the background, and they are the most frequent ones: a colour
    that is not a target has no more visible pixels than any target.
    When the image has at most six visible colours, all of them are
    targets. *)
Theorem top_6_colors_are_most_frequent (img : Image) :
  let top := FixedSixRun.top_6_colors img in
  (length top ≤ 6)%nat
  ∧ NoDup top
  ∧ (∀ c, c ∈ top → c ≠ bg_color img ∧ ∃ p, p ∈ scan img ∧ color_at img p = c)
  ∧ (∀ c c', c ∈ top → c' ∉ top →
       (length (group_of img c' (scan img)) ≤ length (group_of img c (scan img)))%nat)
  ∧ ((length (FixedSixRun.color_counts img) ≤ 6)%nat →
     ∀ p, p ∈ scan img → color_at img p ≠ bg_color img → color_at img p ∈ top).
Proof.
  cbn zeta. destruct (sorted_colors_spec img) as [Hnd Hitems].
  split; [|split; [|split; [|split]]].
  - unfold FixedSixRun.top_6_colors. rewrite length_fmap, length_take. lia.
  - unfold FixedSixRun.top_6_colors. rewrite fmap_take.
    by eapply sublist_NoDup; [| apply sublist_take].
  - intros c Hc. apply top_6_elem in Hc.
    apply (subseteq_take 6) in Hc. apply Hitems in Hc as [_ Hpos].
    destruct (group_of img c (scan img)) as [|p l] eqn:E; [simpl in Hpos; lia|].
    assert (Hp : p ∈ group_of img c (scan img)) by (rewrite E; apply elem_of_cons; auto).
    apply elem_of_group_of in Hp as (Hscan & Hbg & Hcol).
    split; [congruence | by exists p].
  - intros c c' Hc Hc'. apply top_6_elem in Hc.
    destruct (group_of img c' (scan img)) as [|p l] eqn:E; [simpl; lia|].
    rewrite <- E.
    assert (Hin : (c', Z.of_nat (length (group_of img c' (scan img))))
                  ∈ FixedSixRun.sorted_colors img).
    { apply Hitems. split; [done|]. rewrite E. simpl. lia. }
    rewrite <- (take_drop 6 (FixedSixRun.sorted_colors img)) in Hin.
    apply elem_of_app in Hin as [Hin|Hin].
    { exfalso. apply Hc'. by apply top_6_elem. }
    pose proof (sorted_descending_sorted (FixedSixRun.color_counts img)) as Hs.
    fold (FixedSixRun.sorted_colors img) in Hs.
    rewrite <- (take_drop 6 (FixedSixRun.sorted_colors img)) in Hs.
    pose proof (StronglySorted_app_1_elem_of _ _ _ _ _ Hs Hc Hin) as Hle.
    simpl in Hle. lia.
  - apply top_6_covers_few_colours.
Qed.

(** ** create_fixed_six_color_blinka.py: the classification keeps target colours apart *)

Lemma foreign_pixels_snoc_skip (img : Image) (top : list RGB) (ps : list Pixel) (p : Pixel) :
  color_at img p = bg_color img ∨ color_at img p ∈ top →
  foreign_pixels img top (ps ++ [p]) = foreign_pixels img top ps.
Proof.
  intros H. unfold foreign_pixels.
  rewrite filter_app, filter_cons, filter_nil, decide_False by tauto.
  by rewrite app_nil_r.
Qed.

Lemma foreign_pixels_snoc_foreign (img : Image) (top : list RGB) (ps : list Pixel) (p : Pixel) :
  color_at img p ≠ bg_color img → color_at img p ∉ top →
  foreign_pixels img top (ps ++ [p])
  = foreign_pixels img top ps ++ [(p.1, p.2, color_at img p)].
Proof.
  intros H1 H2. unfold foreign_pixels.
  by rewrite filter_app, filter_cons, filter_nil, decide_True, fmap_app.
Qed.

Lemma initial_scan_lookup (top : list RGB) (c : RGB) :
  is_Some (FixedSix.color_pixels (FixedSix.initial_scan top) !! c) ↔ c ∈ top.
Proof.
  split; [|apply initial_scan_keys].
  unfold FixedSix.initial_scan; simpl.
  assert (H : ∀ (items : list RGB) (d : gmap RGB (list Pixel)),
             is_Some (foldl (λ d color, <[color := []]> d) d items !! c) →
             c ∈ items ∨ is_Some (d !! c)).
  { induction items as [|c' items IH]; intros d Hc; simpl in *; [by right|].
    apply IH in Hc as [Hc|Hc]; [left; apply elem_of_cons; auto|].
    destruct (decide (c' = c)) as [->|Hne]; [left; apply elem_of_cons; auto|].
    rewrite lookup_insert_ne in Hc by done. by right. }
  intros Hc. apply H in Hc as [Hc|Hc]; [done|].
  rewrite lookup_empty in Hc. by destruct Hc.
Qed.

Lemma fixed_six_state_initial (img : Image) (top : list RGB) :
  fixed_six_state img top [] (FixedSix.initial_scan top).
Proof.
  split; [done|]. split; [apply initial_scan_lookup|].
  intros c l Hl. apply initial_scan_empty_lists in Hl as ->.
  split; [done|]. by intros p ?%elem_of_nil.
Qed.

Lemma fixed_six_state_keys (img : Image) (top : list RGB) (ps : list Pixel)
    (st : FixedSix.Scan) :
  fixed_six_state img top ps st → has_all_keys top (FixedSix.color_pixels st).
Proof. intros (_ & Hkeys & _) c Hc. by apply Hkeys. Qed.

Lemma fixed_six_state_skip (img : Image) (top : list RGB) (ps : list Pixel)
    (st : FixedSix.Scan) (p : Pixel) :
  color_at img p = bg_color img →
  fixed_six_state img top ps st → fixed_six_state img top (ps ++ [p]) st.
Proof.
  intros Hbg (Hother & Hkeys & Hlists). split; [|split; [done|]].
  - rewrite foreign_pixels_snoc_skip by auto. done.
  - intros c l Hl. destruct (Hlists c l Hl) as [Hf Hin].
    rewrite group_of_snoc_background by done. split; [done|].
    intros q Hq. destruct (Hin q Hq) as (? & ? & ?).
    split; [apply elem_of_app; auto | done].
Qed.

Lemma fixed_six_state_append (img : Image) (top : list RGB) (ps : list Pixel)
    (st : FixedSix.Scan) (p : Pixel) (c0 : RGB) (l0 : list Pixel)
    (other : list (Z * Z * RGB)) :
  color_at img p ≠ bg_color img →
  c0 ∈ top →
  color_at img p = c0 ∨ color_at img p ∉ top →
  FixedSix.color_pixels st !! c0 = Some l0 →
  other = foreign_pixels img top (ps ++ [p]) →
  fixed_six_state img top ps st →
  fixed_six_state img top (ps ++ [p])
    (FixedSix.mkScan (<[c0 := l0 ++ [p]]> (FixedSix.color_pixels st)) other).
Proof.
  intros Hbg Hc0 Hcol Hl0 -> (Hother & Hkeys & Hlists).
  split; [done|]. split; simpl.
  - intros c. destruct (decide (c0 = c)) as [<-|Hne].
    + rewrite lookup_insert_eq. split; [done | by eexists].
    + rewrite lookup_insert_ne by done. apply Hkeys.
  - intros c l. destruct (decide (c0 = c)) as [<-|Hne].
    + rewrite lookup_insert_eq. intros [= <-].
      destruct (Hlists c0 l0 Hl0) as [Hf Hin]. split.
      * rewrite filter_app, filter_cons, filter_nil, Hf.
        destruct (decide (color_at img p = c0)) as [E|E].
        -- by rewrite (group_of_snoc_same img c0 ps p).
        -- by rewrite group_of_snoc_other, app_nil_r.
      * intros q [Hq| ->%list_elem_of_singleton]%elem_of_app.
        -- destruct (Hin q Hq) as (? & ? & ?).
           split; [apply elem_of_app; auto | done].
        -- split; [|done]. apply elem_of_app. right. by apply list_elem_of_singleton.
    + rewrite lookup_insert_ne by done. intros Hl.
      destruct (Hlists c l Hl) as [Hf Hin].
      assert (Hpc : color_at img p ≠ c).
      { intros E. destruct Hcol as [E'|Hn]; [congruence|].
        apply Hn. rewrite E. apply Hkeys. by eexists. }
      rewrite group_of_snoc_other by done. split; [done|].
      intros q Hq. destruct (Hin q Hq) as (? & ? & ?).
      split; [apply elem_of_app; auto | done].
Qed.

Lemma first_largest_elem (size : RGB → nat) (items : list RGB) (c : RGB) :
  first_largest size items c → c ∈ items.
Proof. intros (i & Hi & _). by eapply list_elem_of_lookup_2. Qed.

Lemma fixed_six_state_step (img : Image) (top : list RGB) (ps : list Pixel)
    (st : FixedSix.Scan) (p : Pixel) :
  top ≠ [] ∨ color_at img p = bg_color img →
  fixed_six_state img top ps st →
  ∃ st', FixedSix.classify_pixel top img st p = inr st'
       ∧ fixed_six_state img top (ps ++ [p]) st'.
Proof.
  intros Hne Hst. pose proof (fixed_six_state_keys _ _ _ _ Hst) as Hkeys.
  destruct p as [x y]. unfold FixedSix.classify_pixel.
  change (getpixel img x y) with (color_at img (x, y)).
  set (p := (x, y)). set (rgb := color_at img p).
  destruct (decide (rgb = bg_color img)) as [Hbg|Hbg].
  { exists st. split; [done|]. by apply fixed_six_state_skip. }
  destruct Hne as [Hne|?]; [|done].
  destruct (decide (rgb ∈ top)) as [Hin|Hnin].
  - unfold dict_get. destruct (Hkeys _ Hin) as [l Hl]. rewrite Hl. simpl.
    eexists. split; [reflexivity|].
    apply fixed_six_state_append; [done | done | by left | done | | done].
    destruct Hst as [-> _]. by rewrite foreign_pixels_snoc_skip by auto.
  - destruct (largest_color_spec top _ Hne Hkeys) as (c & l & -> & Hl & Hfirst).
    simpl. unfold dict_get. rewrite Hl. simpl.
    eexists. split; [reflexivity|].
    apply fixed_six_state_append;
      [done | by eapply first_largest_elem | by right | done | | done].
    destruct Hst as [-> _]. by rewrite foreign_pixels_snoc_foreign.
Qed.

Lemma fixed_six_state_loop (img : Image) (top : list RGB) (ps pre : list Pixel)
    (st : FixedSix.Scan) :
  top ≠ [] ∨ (∀ p, p ∈ ps → color_at img p = bg_color img) →
  fixed_six_state img top pre st →
  ∃ st', FixedSix.classify_pixels top img st ps = inr st'
       ∧ fixed_six_state img top (pre ++ ps) st'.
Proof.
  revert pre st. induction ps as [|p ps IH]; intros pre st Hne Hst.
  - exists st. by rewrite app_nil_r.
  - replace (pre ++ p :: ps) with ((pre ++ [p]) ++ ps) by (by rewrite <- app_assoc).
    unfold FixedSix.classify_pixels. simpl.
    destruct (fixed_six_state_step img top pre st p) as (st1 & -> & Hst1); [|done|].
    { destruct Hne as [?|Hall]; [by left|]. right. apply Hall, elem_of_cons; auto. }
    simpl. apply IH; [|done].
    destruct Hne as [?|Hall]; [by left|]. right.
    intros q Hq. apply Hall, elem_of_cons; auto.
Qed.

Lemma fixed_six_separate_state (img : Image) (top : list RGB) :
  top ≠ [] ∨ (∀ p, p ∈ scan img → color_at img p = bg_color img) →
  ∃ st, FixedSix.separate_pixels top img = inr st
      ∧ fixed_six_state img top (scan img) st.
Proof.
  intros Hne.
  apply (fixed_six_state_loop img top (scan img) []); [done|].
  apply fixed_six_state_initial.
Qed.

(** X11: with a non-empty target list, every visible pixel of a target
    colour is filed under its own colour: the list of a target, cut down
    to the pixels of that colour, is the scan-ordered list of all visible
    pixels of the colour, and what else the list holds are visible pixels
    of foreign colours.  [other_pixels] lists exactly the visible pixels
    of foreign colours, in scan order, with their colours. *)
Theorem target_pixels_keep_their_group (top_6_colors : list RGB) (img : Image) :
  top_6_colors ≠ [] →
  ∃ st, FixedSix.separate_pixels top_6_colors img = inr st
    ∧ FixedSix.other_pixels st
      = (λ p : Pixel, (p.1, p.2, color_at img p))
          <$> filter (λ p, color_at img p ≠ bg_color img
                           ∧ color_at img p ∉ top_6_colors) (scan img)
    ∧ (∀ c, is_Some (FixedSix.color_pixels st !! c) ↔ c ∈ top_6_colors)
    ∧ ∀ c l, FixedSix.color_pixels st !! c = Some l →
        filter (λ p, color_at img p = c) l
          = filter (λ p, color_at img p ≠ bg_color img ∧ color_at img p = c) (scan img)
        ∧ ∀ p, p ∈ l → p ∈ scan img ∧ color_at img p ≠ bg_color img
                       ∧ (color_at img p = c ∨ color_at img p ∉ top_6_colors).
Proof.
  intros Hne.
  destruct (fixed_six_separate_state img top_6_colors) as (st & E & Hst); [by left|].
  exists st. split; [done|]. exact Hst.
Qed.

Lemma target_pixels_keep_their_group_witness :
  ∃ st, FixedSix.separate_pixels three_targets scenario_D_image = inr st
    ∧ FixedSix.other_pixels st
      = (λ p : Pixel, (p.1, p.2, color_at scenario_D_image p))
          <$> filter (λ p, color_at scenario_D_image p ≠ bg_color scenario_D_image
                           ∧ color_at scenario_D_image p ∉ three_targets)
                (scan scenario_D_image)
    ∧ (∀ c, is_Some (FixedSix.color_pixels st !! c) ↔ c ∈ three_targets)
    ∧ ∀ c l, FixedSix.color_pixels st !! c = Some l →
        filter (λ p, color_at scenario_D_image p = c) l
          = filter (λ p, color_at scenario_D_image p ≠ bg_color scenario_D_image
                         ∧ color_at scenario_D_image p = c) (scan scenario_D_image)
        ∧ ∀ p, p ∈ l → p ∈ scan scenario_D_image
                       ∧ color_at scenario_D_image p ≠ bg_color scenario_D_image
                       ∧ (color_at scenario_D_image p = c
                          ∨ color_at scenario_D_image p ∉ three_targets).
Proof.
  apply (target_pixels_keep_their_group three_targets scenario_D_image). discriminate.
Defined.

(** ** create_fixed_six_color_blinka.py: the whole run *)

Lemma filter_all {A} (P : A → Prop) `{∀ x, Decision (P x)} (l : list A) :
  (∀ x, x ∈ l → P x) → filter P l = l.
Proof.
  induction l as [|x l IH]; intros Hall; [done|].
  rewrite filter_cons, decide_True by (apply Hall, elem_of_cons; auto).
  f_equal. apply IH. intros y Hy. apply Hall, elem_of_cons; auto.
Qed.

Lemma fixed_six_layer_contours (h : Z) (ps : list Pixel) :
  FixedSixRun.create_color_layer_glyph h ps
  = (λ p, rectangle_contour (pixel_rectangle 4 50 100 h p)) <$> ps.
Proof.
  unfold FixedSixRun.create_color_layer_glyph.
  destruct ps as [|p0 ps0]; [done|].
  transitivity (glyph (foldl (λ pen p, add_rectangle pen (pixel_rectangle 4 50 100 h p))
                         new_pen (p0 :: ps0))); [|by rewrite glyph_add_rectangles].
  f_equal. generalize new_pen. generalize (p0 :: ps0). clear.
  induction l as [|[x y] l IH]; intros pen; simpl; [done|]. apply IH.
Qed.

Lemma fixed_six_outline_same (w h : Z) (ps : list Pixel) :
  FixedSixRun.base_outline_rectangle w h ps = ThreeColor.base_outline_rectangle 4 w h ps.
Proof. by destruct ps. Qed.

Lemma fixed_six_width_same (w : Z) (ps : list Pixel) :
  FixedSixRun.glyph_width w ps = ThreeColor.glyph_width 4 w ps.
Proof. by destruct ps. Qed.

Lemma collect_visible_spec (top : list RGB) (d : gmap RGB (list Pixel)) :
  has_all_keys top d →
  FixedSixRun.collect_visible top d
  = inr (mjoin ((λ c, default [] (d !! c)) <$> top)).
Proof.
  intros Hkeys. unfold FixedSixRun.collect_visible.
  assert (H : ∀ (items : list RGB) (acc : list Pixel),
             (∀ c, c ∈ items → is_Some (d !! c)) →
             for_each (λ all_visible color,
                         do pixels <- dict_get d color; ok (all_visible ++ pixels))
                      acc items
             = inr (acc ++ mjoin ((λ c, default [] (d !! c)) <$> items))).
  { induction items as [|c items IH]; intros acc Hk; simpl.
    - by rewrite app_nil_r.
    - unfold dict_get at 1. destruct (Hk c) as [l Hl]; [apply elem_of_cons; auto|].
      rewrite Hl. simpl. rewrite IH by (intros c' Hc'; apply Hk, elem_of_cons; auto).
      by rewrite <- app_assoc. }
  by rewrite H.
Qed.

Lemma layer_glyphs_spec (h : Z) (top : list RGB) (d : gmap RGB (list Pixel)) :
  has_all_keys top d →
  FixedSixRun.layer_glyphs h top d
  = inr ((λ c, FixedSixRun.create_color_layer_glyph h (default [] (d !! c))) <$> top).
Proof.
  intros Hkeys. unfold FixedSixRun.layer_glyphs.
  assert (H : ∀ (items : list RGB) (acc : list Glyph),
             (∀ c, c ∈ items → is_Some (d !! c)) →
             for_each (λ glyphs color,
                         do pixels <- dict_get d color;
                         ok (glyphs ++ [FixedSixRun.create_color_layer_glyph h pixels]))
                      acc items
             = inr (acc ++ ((λ c, FixedSixRun.create_color_layer_glyph h
                                    (default [] (d !! c))) <$> items))).
  { induction items as [|c items IH]; intros acc Hk; simpl.
    - by rewrite app_nil_r.
    - unfold dict_get at 1. destruct (Hk c) as [l Hl]; [apply elem_of_cons; auto|].
      rewrite Hl. simpl. rewrite IH by (intros c' Hc'; apply Hk, elem_of_cons; auto).
      by rewrite <- app_assoc. }
  by rewrite H.
Qed.

Lemma three_color_outline_total (sf w h : Z) (ps : list Pixel) :
  ∃ r, ThreeColor.base_outline_rectangle sf w h ps = inr r.
Proof.
  destruct (decide (ps = [])) as [->|Hne]; [by eexists|].
  destruct (three_color_outline_nonempty sf w h ps Hne)
    as (a & b & c & d & _ & _ & _ & _ & E). by eexists.
Qed.

Lemma three_color_width_total (sf w : Z) (ps : list Pixel) :
  ∃ width, ThreeColor.glyph_width sf w ps = inr width.
Proof.
  destruct (decide (ps = [])) as [->|Hne]; [by eexists|].
  destruct (three_color_outline_nonempty sf w 0 ps Hne)
    as (a & b & _ & _ & Ha & Hb & _).
  eexists. by apply (three_color_width_nonempty sf w ps a b).
Qed.

Lemma top_6_usable (img : Image) :
  FixedSixRun.top_6_colors img ≠ []
  ∨ (∀ p, p ∈ scan img → color_at img p = bg_color img).
Proof.
  destruct (decide (FixedSixRun.top_6_colors img = [])) as [E|]; [|by left].
  right. by apply top_6_empty.
Qed.

Lemma fixed_six_run_unfold (img : Image) :
  ∃ st r width,
    FixedSix.separate_pixels (FixedSixRun.top_6_colors img) img = inr st
    ∧ fixed_six_state img (FixedSixRun.top_6_colors img) (scan img) st
    ∧ ThreeColor.base_outline_rectangle 4 (original_width img) (original_height img)
        (mjoin ((λ c, default [] (FixedSix.color_pixels st !! c))
                  <$> FixedSixRun.top_6_colors img)) = inr r
    ∧ ThreeColor.glyph_width 4 (original_width img)
        (mjoin ((λ c, default [] (FixedSix.color_pixels st !! c))
                  <$> FixedSixRun.top_6_colors img)) = inr width
    ∧ FixedSixRun.create_fixed_six_color_blinka img
      = inr (FixedSixRun.mkOutput (FixedSixRun.top_6_colors img) st
               (glyph (add_rectangle new_pen r))
               ((λ c, FixedSixRun.create_color_layer_glyph (original_height img)
                        (default [] (FixedSix.color_pixels st !! c)))
                  <$> FixedSixRun.top_6_colors img)
               width).
Proof.
  destruct (fixed_six_separate_state img _ (top_6_usable img)) as (st & Est & Hst).
  pose proof (fixed_six_state_keys _ _ _ _ Hst) as Hkeys.
  set (all_visible := mjoin ((λ c, default [] (FixedSix.color_pixels st !! c))
                               <$> FixedSixRun.top_6_colors img)).
  destruct (three_color_outline_total 4 (original_width img) (original_height img)
              all_visible) as [r Er].
  destruct (three_color_width_total 4 (original_width img) all_visible) as [width Ew].
  exists st, r, width. repeat (split; [done|]).
  unfold FixedSixRun.create_fixed_six_color_blinka. rewrite Est. simpl.
  rewrite collect_visible_spec by done. simpl. fold all_visible.
  rewrite fixed_six_outline_same, Er. simpl.
  rewrite layer_glyphs_spec by done. simpl.
  by rewrite fixed_six_width_same, Ew.
Qed.

Lemma fixed_six_run_splits (img : Image) (st : FixedSix.Scan) :
  FixedSix.separate_pixels (FixedSixRun.top_6_colors img) img = inr st →
  splits_visible img (scan img) (FixedSix.color_pixels st).
Proof.
  intros Est. destruct (top_6_usable img) as [Hne|Hblank].
  - destruct (fixed_six_groups_partition _ img Hne) as (st' & Est' & Hsplit).
    rewrite Est in Est'. by injection Est' as <-.
  - destruct (fixed_six_separate_state img (FixedSixRun.top_6_colors img))
      as (st' & Est' & Hst); [by right|].
    rewrite Est in Est'. injection Est' as <-.
    assert (Hempty : ∀ c l, FixedSix.color_pixels st !! c = Some l → l = []).
    { intros c l Hl. destruct Hst as (_ & _ & Hlists).
      destruct (Hlists c l Hl) as [_ Hin]. destruct l as [|p l]; [done|].
      destruct (Hin p) as (Hscan & Hbg & _); [apply elem_of_cons; auto|].
      by apply Hblank in Hscan. }
    split; [|split].
    + intros c l Hl. apply Hempty in Hl as ->. apply NoDup_nil_2.
    + intros c1 c2 l1 l2 p _ H1 _ Hp. apply Hempty in H1 as ->.
      by apply elem_of_nil in Hp.
    + intros p. split.
      * intros (c & l & Hl & Hp). apply Hempty in Hl as ->. by apply elem_of_nil in Hp.
      * intros [Hbg Hscan]%list_elem_of_filter. by apply Hblank in Hscan.
Qed.

(** X12: the fixed-six run returns on every image.  Its targets are the
    chosen top colours and the keys of the group dictionary; the groups
    are free of repetitions, pairwise disjoint and hold exactly the
    visible pixels; and there is one layer glyph per target, in target
    order, with one rectangle contour per pixel of the target's group. *)
Theorem fixed_six_run_returns (img : Image) :
  ∃ out, FixedSixRun.create_fixed_six_color_blinka img = inr out
    ∧ FixedSixRun.targets out = FixedSixRun.top_6_colors img
    ∧ (∀ c, is_Some (FixedSix.color_pixels (FixedSixRun.scanned out) !! c)
            ↔ c ∈ FixedSixRun.targets out)
    ∧ (∀ c l, FixedSix.color_pixels (FixedSixRun.scanned out) !! c = Some l → NoDup l)
    ∧ pairwise_disjoint (FixedSix.color_pixels (FixedSixRun.scanned out))
    ∧ covers_visible img (FixedSix.color_pixels (FixedSixRun.scanned out))
    ∧ FixedSixRun.layers out
      = (λ c, (λ p, rectangle_contour
                      (pixel_rectangle 4 50 100 (original_height img) p))
                <$> default [] (FixedSix.color_pixels (FixedSixRun.scanned out) !! c))
          <$> FixedSixRun.targets out.
Proof.
  destruct (fixed_six_run_unfold img) as (st & r & width & Est & Hst & Er & Ew & Erun).
  eexists. split; [exact Erun|]. simpl. split; [done|].
  destruct (fixed_six_run_splits img st Est) as (Hnd & Hdis & Hcov).
  split; [by destruct Hst as (_ & Hkeys & _)|].
  split; [done|]. split; [done|]. split.
  - intros p. rewrite Hcov. unfold visible. rewrite list_elem_of_filter. tauto.
  - apply list_fmap_ext. intros i c _. apply fixed_six_layer_contours.
Qed.

(** X13: when the image has at most six visible colours the run is
    exact: no pixel is merged into a foreign group, and the group of
    every target is the scan-ordered list of the visible pixels of that
    colour. *)
Theorem fixed_six_exact_up_to_six_colours (img : Image) :
  (length (FixedSixRun.color_counts img) ≤ 6)%nat →
  ∃ out, FixedSixRun.create_fixed_six_color_blinka img = inr out
    ∧ FixedSix.other_pixels (FixedSixRun.scanned out) = []
    ∧ ∀ c, c ∈ FixedSixRun.targets out →
        FixedSix.color_pixels (FixedSixRun.scanned out) !! c
        = Some (filter (λ p, color_at img p ≠ bg_color img ∧ color_at img p = c)
                  (scan img)).
Proof.
  intros Hlen.
  destruct (fixed_six_run_unfold img) as (st & r & width & Est & Hst & Er & Ew & Erun).
  pose proof (top_6_covers_few_colours img Hlen) as Hall.
  eexists. split; [exact Erun|]. simpl.
  destruct Hst as (Hother & Hkeys & Hlists). split.
  - rewrite Hother. unfold foreign_pixels.
    destruct (filter _ (scan img)) as [|p l] eqn:E; [done|]. exfalso.
    assert (Hp : p ∈ filter (λ p, color_at img p ≠ bg_color img
                                  ∧ color_at img p ∉ FixedSixRun.top_6_colors img)
                     (scan img)) by (rewrite E; apply elem_of_cons; auto).
    apply list_elem_of_filter in Hp as [[Hbg Hn] Hscan]. by apply Hn, Hall.
  - intros c Hc. destruct (proj2 (Hkeys c) Hc) as [l Hl]. rewrite Hl. f_equal.
    destruct (Hlists c l Hl) as [Hf Hin]. fold (group_of img c (scan img)).
    rewrite <- Hf. symmetry. apply filter_all.
    intros p Hp. destruct (Hin p Hp) as (Hscan & Hbg & [E|Hn]); [done|].
    exfalso. by apply Hn, Hall.
Qed.

Lemma fixed_six_exact_up_to_six_colours_witness :
  ∃ out, FixedSixRun.create_fixed_six_color_blinka two_eyes_image = inr out
    ∧ FixedSix.other_pixels (FixedSixRun.scanned out) = []
    ∧ ∀ c, c ∈ FixedSixRun.targets out →
        FixedSix.color_pixels (FixedSixRun.scanned out) !! c
        = Some (filter (λ p, color_at two_eyes_image p ≠ bg_color two_eyes_image
                             ∧ color_at two_eyes_image p = c)
                  (scan two_eyes_image)).
Proof.
  apply (fixed_six_exact_up_to_six_colours two_eyes_image). vm_compute. lia.
Defined.

Lemma is_min_same_elements (m : Z) (xs ys : list Z) :
  (∀ z, z ∈ xs ↔ z ∈ ys) → is_min m xs → is_min m ys.
Proof.
  intros Hsame [Hin Hle]. split; [by apply Hsame|].
  intros z Hz. by apply Hle, Hsame.
Qed.

Lemma is_max_same_elements (m : Z) (xs ys : list Z) :
  (∀ z, z ∈ xs ↔ z ∈ ys) → is_max m xs → is_max m ys.
Proof.
  intros Hsame [Hin Hle]. split; [by apply Hsame|].
  intros z Hz. by apply Hle, Hsame.
Qed.

Lemma fmap_same_elements {A B} (f : A → B) (l k : list A) :
  (∀ x, x ∈ l ↔ x ∈ k) → ∀ y, y ∈ f <$> l ↔ y ∈ f <$> k.
Proof.
  intros Hsame y. rewrite !list_elem_of_fmap.
  split; intros (x & -> & Hx); exists x; (split; [done|]); by apply Hsame.
Qed.

Lemma metrics_same_elements (sf w h : Z) (ps ps' : list Pixel) :
  (∀ p, p ∈ ps ↔ p ∈ ps') →
  ThreeColor.base_outline_rectangle sf w h ps = ThreeColor.base_outline_rectangle sf w h ps'
  ∧ ThreeColor.glyph_width sf w ps = ThreeColor.glyph_width sf w ps'.
Proof.
  intros Hsame. destruct (decide (ps = [])) as [->|Hne].
  { destruct ps' as [|p ps']; [done|].
    exfalso. eapply elem_of_nil, Hsame, elem_of_cons; auto. }
  assert (Hne' : ps' ≠ []).
  { intros ->. destruct ps as [|p ps]; [done|].
    eapply elem_of_nil, Hsame, elem_of_cons; auto. }
  destruct (three_color_outline_nonempty sf w h ps Hne)
    as (a & b & c & d & Ha & Hb & Hc & Hd & E).
  destruct (three_color_outline_nonempty sf w h ps' Hne')
    as (a' & b' & c' & d' & Ha' & Hb' & Hc' & Hd' & E').
  pose proof (fmap_same_elements fst _ _ Hsame) as H1.
  pose proof (fmap_same_elements (λ p : Pixel, h - 1 - p.2) _ _ Hsame) as H2.
  pose proof (is_min_unique _ _ _ (is_min_same_elements _ _ _ H1 Ha) Ha') as Ea.
  pose proof (is_max_unique _ _ _ (is_max_same_elements _ _ _ H1 Hb) Hb') as Eb.
  pose proof (is_min_unique _ _ _ (is_min_same_elements _ _ _ H2 Hc) Hc') as Ec.
  pose proof (is_max_unique _ _ _ (is_max_same_elements _ _ _ H2 Hd) Hd') as Ed.
  subst a' b' c' d'.
  split; [by rewrite E, E'|].
  rewrite (three_color_width_nonempty sf w ps a b) by done.
  by rewrite (three_color_width_nonempty sf w ps' a b).
Qed.

(** X14: on every image the fixed-six run and the three-colour run
    return the same outline glyph and the same advance width: both are
    computed from the set of visible pixels, whatever the grouping. *)
Theorem fixed_six_metrics_match_three_color (img : Image) :
  ∃ out6 out3,
    FixedSixRun.create_fixed_six_color_blinka img = inr out6
    ∧ ThreeColor.create_three_color_blinka img = inr out3
    ∧ FixedSixRun.blinka out6 = ThreeColor.blinka out3
    ∧ FixedSixRun.advance_width out6 = ThreeColor.advance_width out3.
Proof.
  destruct (fixed_six_run_unfold img) as (st & r & width & Est & Hst & Er & Ew & Erun).
  destruct (fixed_six_run_splits img st Est) as (_ & _ & Hcov).
  set (all6 := mjoin ((λ c, default [] (FixedSix.color_pixels st !! c))
                        <$> FixedSixRun.top_6_colors img)) in *.
  set (g := ThreeColor.separate_pixels img).
  set (all3 := ThreeColor.white_pixels g ++ ThreeColor.light_blue_pixels g
               ++ ThreeColor.purple_pixels g).
  assert (Hsame : ∀ p, p ∈ all3 ↔ p ∈ all6).
  { intros p. destruct (three_color_groups_partition img) as [_ H3].
    etrans; [apply (H3 p)|]. unfold all6. rewrite list_elem_of_join.
    destruct Hst as (_ & Hkeys & _). split.
    - intros [Hscan Hbg].
      destruct (proj2 (Hcov p)) as (c & l & Hl & Hp);
        [by apply list_elem_of_filter|].
      exists l. split; [done|]. apply list_elem_of_fmap. exists c.
      rewrite Hl. split; [done|]. apply Hkeys. by eexists.
    - intros (l & Hp & Hl). apply list_elem_of_fmap in Hl as (c & -> & Hc).
      destruct (FixedSix.color_pixels st !! c) as [l|] eqn:El;
        [|by apply elem_of_nil in Hp].
      assert (Hv : p ∈ visible img (scan img)) by (apply Hcov; eauto).
      apply list_elem_of_filter in Hv. tauto. }
  destruct (metrics_same_elements 4 (original_width img) (original_height img)
              all3 all6 Hsame) as [Eo Ewd].
  eexists _, _. split; [exact Erun|]. split.
  - unfold ThreeColor.create_three_color_blinka, ThreeColor.create_base_outline_glyph.
    fold g. fold all3. change ThreeColor.scale_factor with 4.
    rewrite Eo, Er. simpl. rewrite Ewd, Ew. reflexivity.
  - done.
Qed.

(** ** create_final_seventeen_color_blinka.py: no rectangle is drawn twice *)

Lemma seventeen_layer_pixels_nodup (img : Image) (st : Seventeen.Scan)
    (ps : list Pixel) (ns : bool) :
  seventeen_state img (scan img) st →
  (ps, ns) ∈ Seventeen.layer_inputs st →
  NoDup ps.
Proof.
  intros Hst Hin. unfold Seventeen.layer_inputs in Hin.
  apply elem_of_cons in Hin as [[= -> ->]|Hin].
  - destruct Hst as [-> _]. apply NoDup_filter, NoDup_scan.
  - apply list_elem_of_fmap in Hin as (c & [= -> ->] & _).
    destruct (Seventeen.color_pixel_groups st !! c) as [l|] eqn:El; simpl;
      [|apply NoDup_nil_2].
    apply (seventeen_group_lookup _ _ _ _ _ Hst) in El as [_ ->].
    apply NoDup_filter, NoDup_scan.
Qed.

(** X15: in a run that returns, no layer draws a pixel twice: the pixels
    of a layer, boundary spacers included, are pairwise different, so a
    layer with [n] pixels and [k] spacers has [n + k] different
    rectangles. *)
Theorem layer_draws_each_pixel_once (img : Image) (out : Seventeen.Output)
    (ps : list Pixel) (ns : bool) :
  Seventeen.create_final_seventeen_color_blinka img = inr out →
  (ps, ns) ∈ Seventeen.layer_inputs (Seventeen.scanned out) →
  NoDup (Seventeen.all_layer_pixels (Seventeen.bounds out) ps ns).
Proof.
  intros Hrun Hin.
  apply seventeen_run_inv in Hrun as (Est & Eb & _).
  destruct (seventeen_separate_pixels_spec img) as (st & Est' & Hst).
  rewrite Est in Est'. injection Est' as <-.
  set (b := Seventeen.bounds out) in *.
  set (vis := Seventeen.all_visible_pixels (Seventeen.scanned out)) in *.
  pose proof (seventeen_layer_pixels_nodup img _ ps ns Hst Hin) as Hnd.
  unfold Seventeen.all_layer_pixels. apply NoDup_app. split; [done|]. split.
  { intros p Hp Hs. by apply spacers_not_pixels in Hs. }
  rewrite spacers_to_add_filter.
  destruct (ns && bool_decide (ps ≠ [])) eqn:Hflag; [|apply NoDup_nil_2].
  apply andb_true_iff in Hflag as [_ Hne]. apply bool_decide_eq_true_1 in Hne.
  destruct (decide ((Seventeen.min_x b, Seventeen.min_y b)
                    = (Seventeen.max_x b, Seventeen.max_y b))) as [Hsame|Hdiff].
  2:{ apply NoDup_filter. apply NoDup_cons. split; [|apply NoDup_singleton].
      by intros ?%list_elem_of_singleton. }
  (* the two corners coincide: every visible pixel is that corner *)
  injection Hsame as Hx Hy.
  assert (Hvne : vis ≠ []).
  { destruct ps as [|p ps']; [done|]. intros Hnil.
    assert (Hp : p ∈ vis).
    { eapply seventeen_layer_pixels_visible; [done | done | apply elem_of_cons; auto]. }
    rewrite Hnil in Hp. by apply elem_of_nil in Hp. }
  destruct (seventeen_bounds_nonempty vis Hvne)
    as (b' & Eb' & [Hx1 Hx2] & [Hx3 Hx4] & [Hy1 Hy2] & [Hy3 Hy4]).
  rewrite Eb in Eb'. injection Eb' as Eb'. subst b'.
  destruct ps as [|p ps']; [done|].
  assert (Hp : p ∈ vis).
  { eapply seventeen_layer_pixels_visible; [done | done | apply elem_of_cons; auto]. }
  assert (Hcorner : (Seventeen.min_x b, Seventeen.min_y b) ∈ p :: ps').
  { pose proof (Hx2 _ (list_elem_of_fmap_2 fst _ _ Hp)).
    pose proof (Hx4 _ (list_elem_of_fmap_2 fst _ _ Hp)).
    pose proof (Hy2 _ (list_elem_of_fmap_2 snd _ _ Hp)).
    pose proof (Hy4 _ (list_elem_of_fmap_2 snd _ _ Hp)).
    apply elem_of_cons. left. destruct p as [x y]; simpl in *. f_equal; lia. }
  rewrite <- Hx, <- Hy.
  rewrite !filter_cons, filter_nil, !decide_False by tauto.
  apply NoDup_nil_2.
Qed.

Lemma layer_draws_each_pixel_once_witness :
  ∃ out,
    Seventeen.create_final_seventeen_color_blinka two_eyes_image = inr out
    ∧ NoDup (Seventeen.all_layer_pixels (Seventeen.bounds out) [(1, 0)] true).
Proof.
  eexists. split; [by vm_compute|].
  apply (layer_draws_each_pixel_once two_eyes_image _ [(1, 0)] true).
  - by vm_compute.
  - vm_compute. apply elem_of_cons; right. apply elem_of_cons; by left.
Defined.

(** ** create_fixed_six_color_blinka.py: where a foreign pixel ends up *)

Lemma fixed_six_lists_grow (top : list RGB) (img : Image) (ps : list Pixel)
    (st : FixedSix.Scan) :
  top ≠ [] → has_all_keys top (FixedSix.color_pixels st) →
  ∃ st', FixedSix.classify_pixels top img st ps = inr st'
       ∧ ∀ c l, FixedSix.color_pixels st !! c = Some l →
           ∃ l', FixedSix.color_pixels st' !! c = Some l' ∧ l `prefix_of` l'.
Proof.
  intros Hne. revert st. induction ps as [|p ps IH]; intros st Hkeys.
  - exists st. split; [done|]. intros c l Hl. by exists l.
  - unfold FixedSix.classify_pixels. simpl.
    destruct (fixed_six_step_shape top img st p Hne Hkeys)
      as [[_ ->]|(_ & c0 & l0 & others & Hl0 & ->)]; simpl.
    + by apply IH.
    + destruct (IH (FixedSix.mkScan (<[c0 := l0 ++ [p]]> (FixedSix.color_pixels st))
                      others)) as (st' & E & Hgrow).
      { by apply has_all_keys_insert. }
      exists st'. split; [exact E|]. intros c l Hl.
      destruct (decide (c0 = c)) as [<-|Hc].
      * destruct (Hgrow c0 (l0 ++ [p])) as (l' & Hl' & Hpre);
          [apply lookup_insert_eq|].
        exists l'. split; [done|]. rewrite Hl0 in Hl. injection Hl as <-.
        by eapply prefix_app_l.
      * apply Hgrow. simpl. by rewrite lookup_insert_ne.
Qed.

(** C9: when the scan reaches a visible pixel [p] whose colour is not a
    target, the classification loop has a state [before] that holds only
    pixels scanned before [p], with every visible pixel of a target colour
    among them filed under that colour.  The pixel is appended to the list
    of [largest], the first target whose list in [before] is longest, and
    the scan continues from that state and ends without an exception.  In
    what the whole scan returns, the list of [largest] begins with its
    list in [before] followed by [p], no other list holds [p], and
    [other_pixels] records [p] with its colour. *)
Theorem fallback_appends_to_current_largest (top_6_colors : list RGB)
    (img : Image) (pre post : list Pixel) (p : Pixel) :
  scan img = pre ++ p :: post →
  top_6_colors ≠ [] →
  color_at img p ≠ bg_color img →
  color_at img p ∉ top_6_colors →
  ∃ before largest l final,
    FixedSix.classify_pixels top_6_colors img
      (FixedSix.initial_scan top_6_colors) pre = inr before
    ∧ has_all_keys top_6_colors (FixedSix.color_pixels before)
    ∧ FixedSix.color_pixels before !! largest = Some l
    ∧ first_largest (group_size (FixedSix.color_pixels before)) top_6_colors largest
    ∧ FixedSix.classify_pixel top_6_colors img before p
      = inr (FixedSix.mkScan
               (<[largest := l ++ [p]]> (FixedSix.color_pixels before))
               (FixedSix.other_pixels before ++ [(p.1, p.2, color_at img p)]))
    ∧ FixedSix.separate_pixels top_6_colors img
      = FixedSix.classify_pixels top_6_colors img
          (FixedSix.mkScan
             (<[largest := l ++ [p]]> (FixedSix.color_pixels before))
             (FixedSix.other_pixels before ++ [(p.1, p.2, color_at img p)]))
          post
    ∧ FixedSix.separate_pixels top_6_colors img = inr final
    ∧ (∀ c lc, FixedSix.color_pixels before !! c = Some lc →
         filter (λ q, color_at img q = c) lc
           = filter (λ q, color_at img q ≠ bg_color img ∧ color_at img q = c) pre
         ∧ ∀ q, q ∈ lc → q ∈ pre)
    ∧ (∃ lfinal, FixedSix.color_pixels final !! largest = Some lfinal
                 ∧ (l ++ [p]) `prefix_of` lfinal)
    ∧ (∀ c lc, c ≠ largest → FixedSix.color_pixels final !! c = Some lc → p ∉ lc)
    ∧ (p.1, p.2, color_at img p) ∈ FixedSix.other_pixels final.
Proof.
  intros Hscan Hne Hbg Hc.
  destruct (fixed_six_state_loop img top_6_colors pre [] (FixedSix.initial_scan top_6_colors))
    as (before & Ebefore & Hbefore); [by left | apply fixed_six_state_initial|].
  simpl in Hbefore.
  pose proof (fixed_six_state_keys _ _ _ _ Hbefore) as Hkeys.
  destruct (largest_color_spec top_6_colors _ Hne Hkeys)
    as (largest & l & Elargest & Hl & Hfirst).
  set (after := FixedSix.mkScan
                  (<[largest := l ++ [p]]> (FixedSix.color_pixels before))
                  (FixedSix.other_pixels before ++ [(p.1, p.2, color_at img p)])).
  assert (Estep : FixedSix.classify_pixel top_6_colors img before p = inr after).
  { destruct p as [x y]. unfold FixedSix.classify_pixel.
    unfold color_at in Hbg, Hc; simpl in Hbg, Hc.
    rewrite decide_False by done. rewrite decide_False by done.
    rewrite Elargest. simpl. unfold dict_get. by rewrite Hl. }
  assert (Ewhole : FixedSix.separate_pixels top_6_colors img
                   = FixedSix.classify_pixels top_6_colors img after post).
  { unfold FixedSix.separate_pixels, FixedSix.classify_pixels in *.
    rewrite Hscan, for_each_app, Ebefore. simpl. by rewrite Estep. }
  destruct (fixed_six_lists_grow top_6_colors img post after Hne)
    as (final & Efinal & Hgrow).
  { by apply has_all_keys_insert. }
  assert (Erun : FixedSix.separate_pixels top_6_colors img = inr final)
    by (by rewrite Ewhole).
  destruct (Hgrow largest (l ++ [p])) as (lfinal & Hlfinal & Hprefix);
    [apply lookup_insert_eq|].
  assert (Hp : p ∈ lfinal).
  { eapply elem_of_prefix; [|exact Hprefix].
    apply elem_of_app. right. by apply list_elem_of_singleton. }
  exists before, largest, l, final.
  split; [done|]. split; [done|]. split; [done|]. split; [done|].
  split; [done|]. split; [done|]. split; [done|].
  split; [|split; [|split]].
  - intros c lc Hlc. destruct Hbefore as (_ & _ & Hlists).
    destruct (Hlists c lc Hlc) as [Hf Hin]. split; [exact Hf|].
    intros q Hq. by destruct (Hin q Hq).
  - by exists lfinal.
  - intros c lc Hne' Hlc Hp'.
    destruct (fixed_six_groups_partition top_6_colors img Hne)
      as (st & Est & _ & Hdis & _).
    rewrite Erun in Est. injection Est as <-.
    by apply (Hdis largest c lfinal lc p).
  - destruct (fixed_six_separate_state img top_6_colors) as (st & Est & Hother & _);
      [by left|].
    rewrite Erun in Est. injection Est as <-. rewrite Hother.
    unfold foreign_pixels.
    apply (list_elem_of_fmap_2 (λ q : Pixel, (q.1, q.2, color_at img q))).
    apply list_elem_of_filter. split; [done|]. rewrite Hscan.
    apply elem_of_app. right. apply elem_of_cons. by left.
Qed.

Lemma fallback_appends_to_current_largest_witness :
  ∃ before largest l final,
    FixedSix.classify_pixels three_targets scenario_D_image
      (FixedSix.initial_scan three_targets) [(0, 0); (1, 0)] = inr before
    ∧ has_all_keys three_targets (FixedSix.color_pixels before)
    ∧ FixedSix.color_pixels before !! largest = Some l
    ∧ first_largest (group_size (FixedSix.color_pixels before)) three_targets largest
    ∧ FixedSix.classify_pixel three_targets scenario_D_image before (2, 0)
      = inr (FixedSix.mkScan
               (<[largest := l ++ [(2, 0)]]> (FixedSix.color_pixels before))
               (FixedSix.other_pixels before
                ++ [((2, 0).1, (2, 0).2, color_at scenario_D_image (2, 0))]))
    ∧ FixedSix.separate_pixels three_targets scenario_D_image
      = FixedSix.classify_pixels three_targets scenario_D_image
          (FixedSix.mkScan
             (<[largest := l ++ [(2, 0)]]> (FixedSix.color_pixels before))
             (FixedSix.other_pixels before
              ++ [((2, 0).1, (2, 0).2, color_at scenario_D_image (2, 0))]))
          [(3, 0); (4, 0); (5, 0)]
    ∧ FixedSix.separate_pixels three_targets scenario_D_image = inr final
    ∧ (∀ c lc, FixedSix.color_pixels before !! c = Some lc →
         filter (λ q, color_at scenario_D_image q = c) lc
           = filter (λ q, color_at scenario_D_image q ≠ bg_color scenario_D_image
                          ∧ color_at scenario_D_image q = c) [(0, 0); (1, 0)]
         ∧ ∀ q, q ∈ lc → q ∈ [(0, 0); (1, 0)])
    ∧ (∃ lfinal, FixedSix.color_pixels final !! largest = Some lfinal
                 ∧ (l ++ [(2, 0)]) `prefix_of` lfinal)
    ∧ (∀ c lc, c ≠ largest → FixedSix.color_pixels final !! c = Some lc →
               (2, 0) ∉ lc)
    ∧ ((2, 0).1, (2, 0).2, color_at scenario_D_image (2, 0))
        ∈ FixedSix.other_pixels final.
Proof.
  apply (fallback_appends_to_current_largest three_targets scenario_D_image
           [(0, 0); (1, 0)] [(3, 0); (4, 0); (5, 0)] (2, 0)).
  - reflexivity.
  - discriminate.
  - vm_compute. discriminate.
  - vm_compute. intros H.
    repeat (apply elem_of_cons in H as [H|H]; [discriminate H|]).
    by apply elem_of_nil in H.
Defined.

(** ** create_final_seventeen_color_blinka.py: layers against the base *)

Lemma pixel_rectangle_encloses_spacer (h : Z) (p : Pixel) :
  encloses (pixel_rectangle 4 50 100 h p) (spacer_rectangle h p).
Proof.
  destruct p as [x y]. unfold encloses, spacer_rectangle, pixel_rectangle.
  simpl. lia.
Qed.

Lemma encloses_refl (r : Rectangle) : encloses r r.
Proof. unfold encloses. lia. Qed.

Lemma base_covers_corner (h : Z) (b : Seventeen.Bounds) (vis : list Pixel) (p : Pixel) :
  vis ≠ [] →
  p ∈ [ (Seventeen.min_x b, Seventeen.min_y b);
        (Seventeen.max_x b, Seventeen.max_y b) ] →
  ∃ r', rectangle_contour r' ∈ Seventeen.create_layer_with_smart_spacers h b vis true
        ∧ (r' = pixel_rectangle 4 50 100 h p ∨ r' = spacer_rectangle h p)
        ∧ encloses r' (spacer_rectangle h p).
Proof.
  intros Hne Hcorner. rewrite seventeen_layer_contours.
  destruct (decide (p ∈ vis)) as [Hin|Hout].
  - exists (pixel_rectangle 4 50 100 h p). split; [|split].
    + apply elem_of_app. left.
      by apply (list_elem_of_fmap_2
                  (λ p, rectangle_contour (pixel_rectangle 4 50 100 h p))).
    + by left.
    + apply pixel_rectangle_encloses_spacer.
  - exists (spacer_rectangle h p). split; [|split].
    + apply elem_of_app. right.
      apply (list_elem_of_fmap_2 (λ p, rectangle_contour (spacer_rectangle h p))).
      rewrite spacers_to_add_filter. simpl.
      rewrite bool_decide_eq_true_2 by done.
      by apply list_elem_of_filter.
    + by right.
    + apply encloses_refl.
Qed.

(** X7: in a run that returns, the colour layers only repaint what the
    base layer covers.  Every pixel of a layer's own list is drawn as its
    full-size rectangle by that layer and by the base layer; and every
    contour a layer draws, its boundary spacers included, is the
    rectangle of some pixel, full-size or spacer, and the base layer
    draws a rectangle of the same pixel that encloses it. *)
Theorem layer_pixels_lie_on_base (img : Image) (out : Seventeen.Output)
    (i : nat) (ps : list Pixel) (ns : bool) :
  Seventeen.create_final_seventeen_color_blinka img = inr out →
  Seventeen.layer_inputs (Seventeen.scanned out) !! i = Some (ps, ns) →
  ∃ base layer,
    Seventeen.layer_glyphs out !! 0%nat = Some base
    ∧ Seventeen.layer_glyphs out !! i = Some layer
    ∧ (∀ p, p ∈ ps →
         rectangle_contour (pixel_rectangle 4 50 100 (original_height img) p) ∈ base
         ∧ rectangle_contour (pixel_rectangle 4 50 100 (original_height img) p) ∈ layer)
    ∧ (∀ contour, contour ∈ layer →
         ∃ p r r',
           contour = rectangle_contour r
           ∧ (r = pixel_rectangle 4 50 100 (original_height img) p
              ∨ r = spacer_rectangle (original_height img) p)
           ∧ rectangle_contour r' ∈ base
           ∧ (r' = pixel_rectangle 4 50 100 (original_height img) p
              ∨ r' = spacer_rectangle (original_height img) p)
           ∧ encloses r' r).
Proof.
  intros Hrun Hi.
  apply seventeen_run_inv in Hrun as (Est & Eb & ->).
  destruct (seventeen_separate_pixels_spec img) as (st & Est' & Hst).
  rewrite Est in Est'. injection Est' as <-.
  assert (Hvis : ∀ p, p ∈ ps →
                      p ∈ Seventeen.all_visible_pixels (Seventeen.scanned out)).
  { intros p Hp. eapply seventeen_layer_pixels_visible; [done | | done].
    by eapply list_elem_of_lookup_2. }
  assert (Hfull : ∀ p, p ∈ ps →
            rectangle_contour (pixel_rectangle 4 50 100 (original_height img) p)
              ∈ Seventeen.create_layer_with_smart_spacers (original_height img)
                  (Seventeen.bounds out)
                  (Seventeen.all_visible_pixels (Seventeen.scanned out)) true).
  { intros p Hp. rewrite seventeen_layer_contours. apply elem_of_app. left.
    apply (list_elem_of_fmap_2
             (λ p, rectangle_contour (pixel_rectangle 4 50 100 (original_height img) p))).
    by apply Hvis. }
  eexists _, _. split; [reflexivity|]. split.
  { rewrite list_lookup_fmap, Hi. reflexivity. }
  simpl. split.
  - intros p Hp. split; [by apply Hfull|].
    rewrite seventeen_layer_contours. apply elem_of_app. left.
    by apply (list_elem_of_fmap_2
                (λ p, rectangle_contour (pixel_rectangle 4 50 100 (original_height img) p))).
  - intros contour Hc. rewrite seventeen_layer_contours in Hc.
    apply elem_of_app in Hc as [Hc|Hc];
      apply list_elem_of_fmap in Hc as (p & -> & Hp).
    + exists p, (pixel_rectangle 4 50 100 (original_height img) p),
        (pixel_rectangle 4 50 100 (original_height img) p).
      split; [done|]. split; [by left|]. split; [by apply Hfull|].
      split; [by left | apply encloses_refl].
    + rewrite spacers_to_add_filter in Hp.
      destruct ns; simpl in Hp; [|by apply elem_of_nil in Hp].
      destruct (decide (ps = [])) as [->|Hne].
      { rewrite bool_decide_eq_false_2 in Hp by (intros H; by apply H).
        by apply elem_of_nil in Hp. }
      rewrite bool_decide_eq_true_2 in Hp by done.
      apply list_elem_of_filter in Hp as [_ Hcorner].
      assert (Hvne : Seventeen.all_visible_pixels (Seventeen.scanned out) ≠ []).
      { destruct ps as [|q ps']; [done|]. intros Hnil.
        specialize (Hvis q). rewrite Hnil in Hvis.
        eapply elem_of_nil, Hvis. apply elem_of_cons. by left. }
      destruct (base_covers_corner (original_height img) (Seventeen.bounds out)
                  _ p Hvne Hcorner) as (r' & Hbase & Hr' & Henc).
      exists p, (spacer_rectangle (original_height img) p), r'.
      split; [done|]. split; [by right|]. done.
Qed.

Lemma layer_pixels_lie_on_base_witness :
  ∃ out,
    Seventeen.create_final_seventeen_color_blinka diagonal_image = inr out
    ∧ ∃ base layer,
        Seventeen.layer_glyphs out !! 0%nat = Some base
        ∧ Seventeen.layer_glyphs out !! 1%nat = Some layer
        ∧ (∀ p, p ∈ [(2, 0)] →
             rectangle_contour
               (pixel_rectangle 4 50 100 (original_height diagonal_image) p) ∈ base
             ∧ rectangle_contour
                 (pixel_rectangle 4 50 100 (original_height diagonal_image) p) ∈ layer)
        ∧ (∀ contour, contour ∈ layer →
             ∃ p r r',
               contour = rectangle_contour r
               ∧ (r = pixel_rectangle 4 50 100 (original_height diagonal_image) p
                  ∨ r = spacer_rectangle (original_height diagonal_image) p)
               ∧ rectangle_contour r' ∈ base
               ∧ (r' = pixel_rectangle 4 50 100 (original_height diagonal_image) p
                  ∨ r' = spacer_rectangle (original_height diagonal_image) p)
               ∧ encloses r' r).
Proof.
  eexists. split; [by vm_compute|].
  apply (layer_pixels_lie_on_base diagonal_image _ 1 [(2, 0)] true).
  - by vm_compute.
  - by vm_compute.
Defined.

(** On the diagonal image the white layer draws its pixel and both
    corners of the bounding box as spacers, and the base layer draws the
    same two spacers after its two pixels. *)
Example diagonal_run :
  ∃ out,
    Seventeen.create_final_seventeen_color_blinka diagonal_image = inr out
    ∧ Seventeen.bounds out = Seventeen.mkBounds 1 2 0 1
    ∧ Seventeen.layer_glyphs out !! 0%nat
      = Some [ rectangle_contour (mkRect 58 104 62 108);
               rectangle_contour (mkRect 54 100 58 104);
               rectangle_contour (mkRect 54 104 55 105);
               rectangle_contour (mkRect 58 100 59 101) ]
    ∧ Seventeen.layer_glyphs out !! 1%nat
      = Some [ rectangle_contour (mkRect 58 104 62 108);
               rectangle_contour (mkRect 54 104 55 105);
               rectangle_contour (mkRect 58 100 59 101) ].
Proof. eexists. split; [by vm_compute|]. by vm_compute. Qed.
